(** * EEG sleep monitor: signal synthesis, CSV ingestion and event detection

    A shallow embedding of the algorithmic core of [AdvancedEEGSleepMonitor]
    (the class whose methods are [parseCSVData], [generateAdvancedEEGData],
    [generateRealisticChannelData], [generateStageSpecificSignal],
    [generateSleepStageTimeline], [generateSleepEvents],
    [runSleepEventDetection], [detectSpindle], [detectKComplex],
    [detectREMBurst] and [calculateVariance]), followed by the properties
    of the specification that are stated about it.  A second part adds the
    methods around them ([generateRegionalSignal],
    [calculateDominantFrequency], [getFrequencyBandName],
    [calculateActivityLevel], [updateTimePosition], the window of
    [updateMainEEGPlot], [updateSleepStageDisplay], the playback steps,
    [updateSleepQualityScore]) and [parseCSV], the parser of
    [AdvancedBrainVisualizer], with further properties read off the code.

    Conventions of the embedding.

    - JavaScript numbers are kept behind the interface [JSNumber]: the
      methods are written once, over any implementation of the arithmetic
      they use, and the structural theorems hold for every implementation
      (IEEE doubles included).  [Exact.xnum] implements the interface with
      exact rationals extended by [Infinity], [-Infinity] and [NaN]; it is
      used to run the methods on concrete inputs.  It has no negative zero
      and no rounding; the concrete inputs below are chosen so that the
      double computation is exact or far from every threshold, and the
      module [Binary64] redoes their decisive steps in binary64.
    - [Math.random] is the ambient generator of the page.  A computation
      reads the [tape] of values the generator is going to return and
      carries the number of values already drawn.
    - A method that can end in a JavaScript exception returns a
      [completion]; the only exception the modelled methods can raise is the
      [TypeError] of reading an element of [undefined].
    - [this.data] is a record with optional fields, because the object built
      by [generateAdvancedEEGData] and the one built by [parseCSVData] do
      not have the same properties.
    - Strings are sequences of code units below 256.  DOM updates, logging
      and plotting are left out. *)

From Stdlib Require Import ZArith QArith Qround Qabs Lia List Ascii String.
From stdpp Require Import base option list gmap strings.
From Corelib Require PrimFloat.

Local Open Scope string_scope.
Local Open Scope list_scope.

(** ** Numbers *)

Class JSNumber := {
  num : Type;
  (** the Number denoted by a numeric literal, or held by an integer counter *)
  lit : Q -> num;
  Infinity : num;
  NegInfinity : num;
  add : num -> num -> num;
  sub : num -> num -> num;
  mul : num -> num -> num;
  div : num -> num -> num;
  (** the [%] operator *)
  rem : num -> num -> num;
  (** [a < b]; [a > b] is [lt b a] *)
  lt : num -> num -> bool;
  (** ToBoolean of a Number: false for 0 and NaN *)
  truthy : num -> bool;
  (** [Some k] when the Number is the array index [k] *)
  array_index : num -> option nat;
  Math_PI : num;
  Math_sin : num -> num;
  Math_abs : num -> num;
  Math_floor : num -> num;
  Math_pow : num -> num -> num;
  Math_min2 : num -> num -> num;
  Math_max2 : num -> num -> num;
  parseFloat : string -> num
}.

Declare Scope js_scope.
Delimit Scope js_scope with js.
Notation "a + b" := (add a b) : js_scope.
Notation "a - b" := (sub a b) : js_scope.
Notation "a * b" := (mul a b) : js_scope.
Notation "a / b" := (div a b) : js_scope.
Notation "a 'mod' b" := (rem a b) : js_scope.
Notation "a <? b" := (lt a b) : js_scope.
Notation "a >? b" := (lt b a) : js_scope.
Arguments lit {_} q%_Q.

(** ** Completions and the computation monad *)

Inductive completion (A : Type) : Type :=
| Normal (a : A)
| Throw (err : string).
Arguments Normal {A} a.
Arguments Throw {A} err.

Section Monad.
Context {N : JSNumber}.

(** The values the ambient [Math.random] returns, in the order of the calls. *)
Definition tape : Type := nat -> num.

(** A computation reads the tape from the position it is given and returns
    its completion with the position it has reached. *)
Definition JS (A : Type) : Type := tape -> nat -> completion A * nat.

Definition ret {A} (a : A) : JS A := fun _ n => (Normal a, n).

Definition bind {A B} (c : JS A) (k : A -> JS B) : JS B :=
  fun tp n =>
    match c tp n with
    | (Normal a, n') => k a tp n'
    | (Throw e, n') => (Throw e, n')
    end.

Definition throw {A} (e : string) : JS A := fun _ n => (Throw e, n).

Definition Math_random : JS num := fun tp n => (Normal (tp n), S n).

End Monad.

Notation "x <- c1 ;; c2" := (bind c1 (fun x => c2))
  (at level 100, c1 at next level, right associativity).

Section Loops.
Context {N : JSNumber}.

(** [for (const x of l) acc = f(x, acc)] *)
Fixpoint foldM {A B} (f : B -> A -> JS A) (l : list B) (a : A) : JS A :=
  match l with
  | [] => ret a
  | x :: l' => a' <- f x a ;; foldM f l' a'
  end.

(** [for (const x of l) out.push(f(x))] *)
Fixpoint mapM {A B} (f : A -> JS B) (l : list A) : JS (list B) :=
  match l with
  | [] => ret []
  | x :: l' => y <- f x ;; ys <- mapM f l' ;; ret (y :: ys)
  end.

(** Short-circuit [b && c] where [c] has effects. *)
Definition andM (b : bool) (c : JS bool) : JS bool :=
  if b then c else ret false.

End Loops.

(** The values of the counter in [for (let i = start; i < bound; i += step)],
    for a body that writes neither [i] nor the bound.  The fuel only bounds
    the recursion: [Z.to_nat bound] iterations are enough when [step >= 1]
    (lemma [counter_values_fuel]). *)
Fixpoint counter_values (fuel i step : nat) (bound : Z) : list nat :=
  match fuel with
  | O => []
  | S fuel' =>
      if (Z.of_nat i <? bound)%Z
      then i :: counter_values fuel' (i + step) step bound
      else []
  end.

Definition for_counter (start step : nat) (bound : Z) : list nat :=
  counter_values (Z.to_nat bound) start step bound.

(** ** Strings *)

(** White space removed by [String.prototype.trim], among code units < 256. *)
Definition is_whitespace (c : ascii) : bool :=
  let n := nat_of_ascii c in
  (Nat.leb 9 n && Nat.leb n 13) || Nat.eqb n 32 || Nat.eqb n 160.

Fixpoint trim_start (s : string) : string :=
  match s with
  | String c s' => if is_whitespace c then trim_start s' else s
  | EmptyString => EmptyString
  end.

Fixpoint trim_end (s : string) : string :=
  match s with
  | EmptyString => EmptyString
  | String c s' =>
      match trim_end s' with
      | EmptyString => if is_whitespace c then EmptyString else String c EmptyString
      | t => String c t
      end
  end.

Definition trim (s : string) : string := trim_end (trim_start s).

(** [s.split(sep)] for a one-character separator: the result is never
    empty, and [n] separators give [n + 1] fields. *)
Fixpoint split (sep : ascii) (s : string) : list string :=
  match s with
  | EmptyString => [EmptyString]
  | String c s' =>
      if Ascii.eqb c sep then EmptyString :: split sep s'
      else match split sep s' with
           | f :: fs => String c f :: fs
           | [] => [String c EmptyString]
           end
  end.

Definition newline : ascii := ascii_of_nat 10.
Definition comma : ascii := ascii_of_nat 44.

(** ** Data model *)

(** The object pushed on the event list.  [ev_time] is [None] when
    [this.data.time[i]] is [undefined]; the fields after [ev_confidence] are
    present or not according to the type of event. *)
Record event (T : Type) : Type := {
  ev_time : option T;
  ev_type : string;
  ev_description : string;
  ev_confidence : option T;
  ev_frequency : option T;
  ev_duration : option T;
  ev_amplitude : option T
}.
Arguments ev_time {T} e.
Arguments ev_type {T} e.
Arguments ev_description {T} e.
Arguments ev_confidence {T} e.
Arguments ev_frequency {T} e.
Arguments ev_duration {T} e.
Arguments ev_amplitude {T} e.


(** [this.data] (and [this.realEEGData]).  [generateAdvancedEEGData] builds
    [{time, channels, sleepStages, events}], [parseCSVData] builds
    [{time, channels, samples}]. *)
Record dataset (T : Type) : Type := {
  time : list T;
  channels : gmap string (list T);
  sleepStages : option (list string);
  events : option (list (event T));
  samples : option nat
}.
Arguments time {T} d.
Arguments channels {T} d.
Arguments sleepStages {T} d.
Arguments events {T} d.
Arguments samples {T} d.


Section Model.
Context {N : JSNumber}.
Local Open Scope js_scope.

(** [x || y] on Numbers. *)
Definition num_or (x y : num) : num := if truthy x then x else y.

(** [arr[k]] for a Number [k]: [undefined] unless [k] is an index in range. *)
Definition at_index {A} (arr : list A) (k : num) : option A :=
  match array_index k with
  | Some i => arr !! i
  | None => None
  end.

(** [s || fallback] on an optional string: [undefined] and the empty string
    are falsy. *)
Definition string_or (s : option string) (fallback : string) : string :=
  match s with
  | Some EmptyString => fallback
  | Some s' => s'
  | None => fallback
  end.

(** [stage === label] where [stage] may be [undefined]. *)
Definition stage_is (stage : option string) (label : string) : bool :=
  match stage with
  | Some s => String.eqb s label
  | None => false
  end.

Definition of_nat (i : nat) : num := lit (inject_Z (Z.of_nat i)).

(** [arr.reduce((a, b) => a + b, 0)] *)
Definition sum (l : list num) : num := fold_left add l (lit 0).

(** [Math.min(...l)] and [Math.max(...l)] *)
Definition Math_min (l : list num) : num := fold_left Math_min2 l Infinity.
Definition Math_max (l : list num) : num := fold_left Math_max2 l NegInfinity.

(** ** CSV ingestion: [parseCSVData] *)

(** The first loop: [data.channels[headers[i].trim()] = []] for
    [1 <= i < headers.length]. *)
Definition init_channels (headers : list string) : gmap string (list num) :=
  fold_left (fun ch h => <[trim h := []]> ch) (tail headers) ∅.

(** [data.channels[name].push(value)].  The parser only pushes on a channel
    of the header, which is a key of the map from the first loop on (lemma
    [push_on_header_channel]). *)
Definition push_channel (name : string) (value : num)
    (ch : gmap string (list num)) : gmap string (list num) :=
  alter (fun arr => arr ++ [value]) name ch.

(** The inner loop over [1 <= j < values.length && j < headers.length]. *)
Definition push_row (headers values : list string)
    (ch : gmap string (list num)) : gmap string (list num) :=
  fold_left
    (fun ch j =>
       let channelName := trim (nth j headers "") in
       let value := num_or (parseFloat (nth j values "")) (lit 0) in
       push_channel channelName value ch)
    (seq 1 (Nat.min (length values) (length headers) - 1)) ch.

(** The body of the row loop, on the pair [(data.time, data.channels)]. *)
Definition parse_row (headers lines : list string) (i : nat)
    (acc : list num * gmap string (list num)) : list num * gmap string (list num) :=
  let values := split comma (nth i lines "") in
  if Nat.leb 2 (length values) then
    let timeValue := of_nat i * lit 0.004 in
    (fst acc ++ [timeValue], push_row headers values (snd acc))
  else acc.

(** The row indices of [for (let i = 1; i < lines.length && i < 5000; i++)]. *)
Definition row_indices (lines : list string) : list nat :=
  seq 1 (Nat.min (length lines) 5000 - 1).

Definition parseCSVData (csvText : string) : dataset num :=
  let lines := split newline (trim csvText) in
  let headers := split comma (nth 0 lines "") in
  let acc :=
    fold_left (fun acc i => parse_row headers lines i acc)
      (row_indices lines) ([], init_channels headers) in
  {| time := fst acc;
     channels := snd acc;
     sleepStages := None;
     events := None;
     samples := Some (length (fst acc)) |}.

(** ** Waveform synthesis *)

(** [Math.sin(2 * Math.PI * f * t) * a] *)
Definition wave (f : Q) (t : num) (a : Q) : num :=
  Math_sin (lit 2 * Math_PI * lit f * t) * lit a.

Definition generateStageSpecificSignal (t : num) (stage regionType : string)
    : JS num :=
  let signal := lit 0 in
  signal <-
    (if String.eqb stage "Wake" then
       ret (signal + wave 10 t 15 + wave 20 t 20)
     else if String.eqb stage "N1" then
       ret (signal + wave 6 t 25 + wave 9 t 10)
     else if String.eqb stage "N2" then
       let signal := signal + wave 2 t 30 + wave 12 t 15 in
       r <- Math_random ;;
       if r <? lit 0.001 then ret (signal + wave 1 t 80) else ret signal
     else if String.eqb stage "N3" then
       ret (signal + wave 1 t 50 + wave 2 t 30)
     else if String.eqb stage "REM" then
       ret (signal + wave 15 t 12 + wave 25 t 8 + wave 6 t 10)
     else ret signal) ;;
  if String.eqb regionType "frontal" then ret (signal * lit 1.2)
  else if String.eqb regionType "occipital" then
    if String.eqb stage "Wake" then ret (signal * lit 1.5) else ret signal
  else ret signal.

Definition brainRegions : list (string * list string) :=
  [ ("frontal", ["Fp1"; "Fp2"; "F3"; "F4"; "F7"; "F8"]);
    ("temporal", ["T3"; "T4"; "T5"; "T6"]);
    ("parietal", ["P3"; "P4"; "Pz"]);
    ("occipital", ["O1"; "O2"]) ].

Definition includes (l : list string) (s : string) : bool :=
  existsb (String.eqb s) l.

Definition getChannelRegion (channel : string) : string :=
  match find (fun rc => includes (snd rc) channel) brainRegions with
  | Some rc => fst rc
  | None => "central"
  end.

Definition multipliers : list (string * Q) :=
  [ ("Fp1", 0.8); ("Fp2", 0.8);
    ("F3", 1.0); ("F4", 1.0); ("F7", 0.9); ("F8", 0.9);
    ("C3", 1.2); ("C4", 1.2);
    ("P3", 1.1); ("P4", 1.1);
    ("O1", 1.3); ("O2", 1.3);
    ("T3", 0.9); ("T4", 0.9) ]%Q.

(** [multipliers[channel] || 1.0], for a channel name that is not a property
    of [Object.prototype]. *)
Definition getChannelAmplitudeMultiplier (channel : string) : num :=
  match find (fun kv => String.eqb (fst kv) channel) multipliers with
  | Some kv => num_or (lit (snd kv)) (lit 1.0)
  | None => lit 1.0
  end.

(** The pattern indexed by [generateRealisticChannelData]. *)
Definition channelStagePattern : list string :=
  ["Wake"; "N1"; "N2"; "N3"; "N2"; "REM"; "N2"; "N3"].

(** The two [const] lines of the loop body of [generateRealisticChannelData]:
    [stageIndex = Math.floor(i / (samples / 8))] and
    [sleepStage = [...][stageIndex] || 'N2']. *)
Definition channelStageIndex (samples i : nat) : num :=
  Math_floor (of_nat i / (of_nat samples / lit 8)).

Definition channelStage (samples i : nat) : string :=
  string_or (at_index channelStagePattern (channelStageIndex samples i)) "N2".

(** One iteration of the loop of [generateRealisticChannelData]. *)
Definition channelSample (samples : nat) (channel regionType : string) (i : nat)
    : JS num :=
  let t := of_nat i / lit 10 in
  let sleepStage := channelStage samples i in
  signal <- generateStageSpecificSignal t sleepStage regionType ;;
  r <- Math_random ;;
  let signal := signal + (r - lit 0.5) * lit 5 in
  let signal := signal * getChannelAmplitudeMultiplier channel in
  ret signal.

(** [samples] is an array length ([new Array(samples)]), so below 2^32. *)
Definition generateRealisticChannelData (samples : nat) (channel : string)
    : JS (list num) :=
  let regionType := getChannelRegion channel in
  mapM (channelSample samples channel regionType) (seq 0 samples).

(** ** Stage timeline *)

(** The body of the loop of [generateSleepStageTimeline], with the two local
    constants of the method ([cyclePattern] and the number of cycles, 4) as
    arguments. *)
Definition timelineStage (pattern : list string) (cycles samples i : nat)
    : string :=
  let cycleLength := of_nat samples / of_nat cycles in
  let cyclePosition := (of_nat i mod cycleLength) / cycleLength in
  let stageIndex := Math_floor (cyclePosition * of_nat (length pattern)) in
  string_or (at_index pattern stageIndex) "N2".

Definition stageTimeline (pattern : list string) (cycles samples : nat)
    : list string :=
  map (timelineStage pattern cycles samples) (seq 0 samples).

Definition cyclePattern : list string :=
  ["Wake"; "N1"; "N2"; "N3"; "N2"; "REM"].

(** [generateSleepStageTimeline(samples)] pushes on the array
    [this.data.sleepStages], given here as [stages]. *)
Definition generateSleepStageTimeline (samples : nat) (stages : list string)
    : list string :=
  stages ++ stageTimeline cyclePattern 4 samples.

(** The labels of the stage enumeration. *)
Definition stageLabels : list string := ["Wake"; "N1"; "N2"; "N3"; "REM"].

Definition isStage (s : string) : Prop := In s stageLabels.

(** ** Scheduled events: [generateSleepEvents] *)

Definition generateSleepEvents_step (times : list num) (stages : list string)
    (i : nat) (events : list (event num)) : JS (list (event num)) :=
  let stage := stages !! i in
  let time := times !! i in
  b <- andM (stage_is stage "N2") (r <- Math_random ;; ret (r <? lit 0.1)) ;;
  events <-
    (if b : bool then
       r1 <- Math_random ;;
       r2 <- Math_random ;;
       ret (events ++ [ {| ev_time := time; ev_type := "sleep_spindle";
                           ev_description := "Sleep spindle burst";
                           ev_confidence := None;
                           ev_frequency := Some (lit 12 + r1 * lit 4);
                           ev_duration := Some (lit 0.5 + r2 * lit 1.5);
                           ev_amplitude := None |} ])
     else ret events) ;;
  b <- andM (stage_is stage "N2") (r <- Math_random ;; ret (r <? lit 0.05)) ;;
  events <-
    (if b : bool then
       r1 <- Math_random ;;
       ret (events ++ [ {| ev_time := time; ev_type := "k_complex";
                           ev_description := "K-complex detected";
                           ev_confidence := None;
                           ev_frequency := None;
                           ev_duration := None;
                           ev_amplitude := Some (lit 50 + r1 * lit 30) |} ])
     else ret events) ;;
  b <- andM (stage_is stage "REM") (r <- Math_random ;; ret (r <? lit 0.15)) ;;
  if b : bool then
    r1 <- Math_random ;;
    ret (events ++ [ {| ev_time := time; ev_type := "rem_burst";
                        ev_description := "REM burst episode";
                        ev_confidence := None;
                        ev_frequency := None;
                        ev_duration := Some (lit 2 + r1 * lit 5);
                        ev_amplitude := None |} ])
  else ret events.

Definition generateSleepEvents (samples : nat) (times : list num)
    (stages : list string) : JS (list (event num)) :=
  foldM (generateSleepEvents_step times stages)
    (for_counter 0 100 (Z.of_nat samples)) [].

(** ** The synthesized dataset: [generateAdvancedEEGData] *)

Definition this_channels : list string :=
  ["Fp1"; "Fp2"; "F3"; "F4"; "F7"; "F8"; "T3"; "T4"; "C3"; "C4"; "P3"; "P4";
   "O1"; "O2"].

(** [for (let i = 0; i < samples; i++) this.data.time.push(i / 10)] *)
Definition timeArray (samples : nat) : list num :=
  map (fun i => of_nat i / lit 10) (seq 0 samples).

(** The method with its local [samples] as an argument. *)
Definition generateDataset (samples : nat) : JS (dataset num) :=
  let times := timeArray samples in
  chans <-
    foldM (fun channel (ch : gmap string (list num)) =>
             series <- generateRealisticChannelData samples channel ;;
             ret (<[channel := series]> ch))
      this_channels ∅ ;;
  let stages := generateSleepStageTimeline samples [] in
  evs <- generateSleepEvents samples times stages ;;
  ret {| time := times;
         channels := chans;
         sleepStages := Some stages;
         events := Some evs;
         samples := None |}.

(** [duration = 3600; samples = duration * 10] *)
Definition generateAdvancedEEGData : JS (dataset num) := generateDataset (3600 * 10).

(** ** Event detection *)

Definition calculateVariance (data : list num) : num :=
  let mean := sum data / of_nat (length data) in
  fold_left (fun a b => a + Math_pow (b - mean) (lit 2)) data (lit 0)
    / of_nat (length data).

Definition detectSpindle (window : list num) : JS bool :=
  let variance := calculateVariance window in
  let meanAmplitude :=
    fold_left (fun a b => a + Math_abs b) window (lit 0)
      / of_nat (length window) in
  andM ((variance >? lit 15) && (meanAmplitude >? lit 8))
    (r <- Math_random ;; ret (r >? lit 0.7)).

Definition detectKComplex (window : list num) : JS bool :=
  let minValue := Math_min window in
  let maxValue := Math_max window in
  let amplitude := maxValue - minValue in
  andM ((amplitude >? lit 50) && (minValue <? lit (-25)))
    (r <- Math_random ;; ret (r >? lit 0.8)).

(** [window.filter((val, i) => i > 0 && Math.abs(val - window[i-1]) > 5).length]:
    the elements that differ from their predecessor by more than 5. *)
Fixpoint jumps_after (prev : num) (l : list num) : nat :=
  match l with
  | [] => 0
  | val :: l' =>
      (if Math_abs (val - prev) >? lit 5 then 1 else 0) + jumps_after val l'
  end.

Definition highFreqActivity (window : list num) : nat :=
  match window with
  | [] => 0
  | first :: l => jumps_after first l
  end.

Definition detectREMBurst (window : list num) : JS bool :=
  andM (of_nat (highFreqActivity window) >? of_nat (length window) * lit 0.3)
    (r <- Math_random ;; ret (r >? lit 0.6)).

(** [channelData.slice(i, i + windowSize)] *)
Definition slice (channelData : list num) (i windowSize : nat) : list num :=
  take windowSize (drop i channelData).

(** The body of the loop of [runSleepEventDetection] for the window that
    starts at [i]; [events] is the array built so far.  Reading
    [this.data.sleepStages[i]] raises a TypeError when the dataset has no
    [sleepStages] (a dataset that comes from [parseCSVData]). *)
Definition scanWindow (d : dataset num) (channelData : list num) (windowSize i : nat)
    (events : list (event num)) : JS (list (event num)) :=
  let window := slice channelData i windowSize in
  let time := time d !! i in
  match sleepStages d with
  | None => throw "TypeError"
  | Some stages =>
      let stage := stages !! i in
      b <- andM (stage_is stage "N2") (detectSpindle window) ;;
      events <-
        (if b : bool then
           r1 <- Math_random ;;
           r2 <- Math_random ;;
           r3 <- Math_random ;;
           ret (events ++ [ {| ev_time := time; ev_type := "sleep_spindle";
                               ev_description := "Sleep spindle detected";
                               ev_confidence := Some (lit 0.85 + r1 * lit 0.1);
                               ev_frequency := Some (lit 12 + r2 * lit 4);
                               ev_duration := Some (lit 0.5 + r3 * lit 1.5);
                               ev_amplitude := None |} ])
         else ret events) ;;
      b <- andM (stage_is stage "N2") (detectKComplex window) ;;
      events <-
        (if b : bool then
           r1 <- Math_random ;;
           ret (events ++ [ {| ev_time := time; ev_type := "k_complex";
                               ev_description := "K-complex detected";
                               ev_confidence := Some (lit 0.80 + r1 * lit 0.15);
                               ev_frequency := None;
                               ev_duration := None;
                               ev_amplitude :=
                                 Some (Math_max (map Math_abs window)) |} ])
         else ret events) ;;
      b <- andM (stage_is stage "REM") (detectREMBurst window) ;;
      if b : bool then
        r1 <- Math_random ;;
        r2 <- Math_random ;;
        ret (events ++ [ {| ev_time := time; ev_type := "rem_burst";
                            ev_description := "REM burst episode";
                            ev_confidence := Some (lit 0.75 + r1 * lit 0.2);
                            ev_frequency := None;
                            ev_duration := Some (lit 2 + r2 * lit 5);
                            ev_amplitude := None |} ])
      else ret events
  end.

(** The window starts of
    [for (let i = 0; i < channelData.length - windowSize; i += windowSize)]. *)
Definition windowStarts (windowSize len : nat) : list nat :=
  for_counter 0 windowSize (Z.of_nat len - Z.of_nat windowSize).

(** [runSleepEventDetection] with its local constant [windowSize] as an
    argument ([windowSize >= 1]: the JavaScript loop does not advance for 0). *)
Definition detectEvents (windowSize : nat) (data : option (dataset num))
    : JS (list (event num)) :=
  match data with
  | None => ret []
  | Some d =>
      match channels d !! "C3" with
      | None => ret []
      | Some channelData =>
          foldM (scanWindow d channelData windowSize)
            (windowStarts windowSize (length channelData)) []
      end
  end.

Definition runSleepEventDetection (data : option (dataset num)) : JS (list (event num)) :=
  detectEvents 50 data.

End Model.

(** ** Vocabulary of the statements *)

Section Vocabulary.
Context {N : JSNumber}.
Local Open Scope js_scope.

(** The stage gate of the detector: an event of type [sleep_spindle] or
    [k_complex] goes with stage [N2], one of type [rem_burst] with [REM],
    and there is no other type. *)
Definition gated (stage : option string) (e : event num) : Prop :=
  (ev_type e = "sleep_spindle" \/ ev_type e = "k_complex") /\ stage = Some "N2"
  \/ ev_type e = "rem_burst" /\ stage = Some "REM".

(** Two tapes that hold the same values at the positions [n <= k < n']. *)
Definition agree (tp1 tp2 : tape) (n n' : nat) : Prop :=
  forall k, n <= k < n' -> tp1 k = tp2 k.

(** A computation whose result is fixed by the values it draws: it only
    moves forward on the tape, and it behaves the same on any tape that
    agrees with the first one on the positions it has read. *)
Definition draw_local {A} (c : JS A) : Prop :=
  forall tp1 tp2 n r n',
    c tp1 n = (r, n') -> n <= n' /\ (agree tp1 tp2 n n' -> c tp2 n = (r, n')).

(** A computation that never ends in an exception. *)
Definition completes_normally {A} (c : JS A) : Prop :=
  forall tp n, exists a n', c tp n = (Normal a, n').

(** A sequence of Numbers that increases strictly, for the [<] of the
    Numbers. *)
Definition increasing (l : list num) : Prop :=
  forall j k x y, j < k -> l !! j = Some x -> l !! k = Some y -> (x <? y) = true.

(** What the strict increase of the time arrays asks of the arithmetic: on
    the integers below 2^32 (the array lengths), dividing by 10 is strictly
    monotone, and so is multiplying by 0.004 below 5000.  Both hold for
    doubles, where the results are far more than one unit in the last place
    apart, and for exact numbers. *)
Definition grid_monotone : Prop :=
  (forall a b : nat,
     a < b -> (Z.of_nat b < 2 ^ 32)%Z ->
     (of_nat a / lit 10 <? of_nat b / lit 10) = true)
  /\ (forall a b : nat,
        a < b -> b < 5000 ->
        (of_nat a * lit 0.004 <? of_nat b * lit 0.004) = true).

(** The lines and the header fields [parseCSVData] works on. *)
Definition csv_lines (csvText : string) : list string :=
  split newline (trim csvText).

Definition csv_headers (csvText : string) : list string :=
  split comma (nth 0 (csv_lines csvText) "").

(** The fields of line [i]. *)
Definition row_values (lines : list string) (i : nat) : list string :=
  split comma (nth i lines "").

(** The indices of the lines that pass the test [values.length >= 2]. *)
Definition kept_rows (lines : list string) : list nat :=
  filter (fun i => 2 <= length (row_values lines i)) (row_indices lines).

(** The time given to line [i]. *)
Definition row_time (i : nat) : num := of_nat i * lit 0.004.

(** The values line [i] has for the columns whose trimmed header is [name]:
    one per column [j] with [1 <= j < values.length] and
    [j < headers.length]. *)
Definition row_cells (headers lines : list string) (name : string) (i : nat)
    : list num :=
  let values := row_values lines i in
  flat_map
    (fun j =>
       if String.eqb (trim (nth j headers "")) name
       then [num_or (parseFloat (nth j values "")) (lit 0)]
       else [])
    (seq 1 (Nat.min (length values) (length headers) - 1)).

End Vocabulary.

(** ** Exact numbers

    Rationals in lowest terms with the two infinities and NaN.  Arithmetic
    is exact, so a result differs from the double computation by the
    rounding the latter performs; there is no negative zero. *)

Module Exact.

Inductive xnum : Type :=
| Fin (q : Q)
| PInf
| NInf
| XNaN.

Definition fin (q : Q) : xnum := Fin (Qred q).

Definition Qltb (a b : Q) : bool := negb (Qle_bool b a).
Definition Qis_zero (a : Q) : bool := Qeq_bool a 0.
Definition Qis_int (a : Q) : bool := Qeq_bool a (inject_Z (Qfloor a)).

Definition xneg (a : xnum) : xnum :=
  match a with
  | Fin q => fin (- q)
  | PInf => NInf
  | NInf => PInf
  | XNaN => XNaN
  end.

Definition xadd (a b : xnum) : xnum :=
  match a, b with
  | XNaN, _ | _, XNaN => XNaN
  | PInf, NInf | NInf, PInf => XNaN
  | PInf, _ | _, PInf => PInf
  | NInf, _ | _, NInf => NInf
  | Fin p, Fin q => fin (p + q)
  end.

Definition xsub (a b : xnum) : xnum := xadd a (xneg b).

(** The sign of a Number that is not NaN: -1, 0 or 1. *)
Definition xsign (a : xnum) : Z :=
  match a with
  | Fin q => Z.sgn (Qnum q)
  | PInf => 1
  | NInf => -1
  | XNaN => 0
  end.

Definition signed_inf (s : Z) : xnum :=
  if (s <? 0)%Z then NInf else PInf.

Definition xmul (a b : xnum) : xnum :=
  match a, b with
  | XNaN, _ | _, XNaN => XNaN
  | Fin p, Fin q => fin (p * q)
  | _, _ =>
      if (xsign a * xsign b =? 0)%Z then XNaN
      else signed_inf (xsign a * xsign b)
  end.

Definition xdiv (a b : xnum) : xnum :=
  match a, b with
  | XNaN, _ | _, XNaN => XNaN
  | Fin p, Fin q =>
      if Qis_zero q
      then (if Qis_zero p then XNaN else signed_inf (xsign a))
      else fin (p / q)
  | Fin _, _ => fin 0
  | _, Fin q => signed_inf (xsign a * (if Qis_zero q then 1 else xsign b))
  | _, _ => XNaN
  end.

(** Rounding towards zero. *)
Definition Qtrunc (a : Q) : Z :=
  if Qltb a 0 then Qceiling a else Qfloor a.

(** [a % b]: the remainder has the sign of the dividend. *)
Definition xrem (a b : xnum) : xnum :=
  match a, b with
  | Fin p, Fin q =>
      if Qis_zero q then XNaN
      else fin (p - q * inject_Z (Qtrunc (p / q)))
  | Fin p, PInf | Fin p, NInf => Fin p
  | _, _ => XNaN
  end.

Definition xlt (a b : xnum) : bool :=
  match a, b with
  | XNaN, _ | _, XNaN => false
  | Fin p, Fin q => Qltb p q
  | NInf, NInf => false
  | NInf, _ => true
  | Fin _, PInf => true
  | _, _ => false
  end.

Definition xtruthy (a : xnum) : bool :=
  match a with
  | Fin q => negb (Qis_zero q)
  | XNaN => false
  | _ => true
  end.

Definition xindex (a : xnum) : option nat :=
  match a with
  | Fin q =>
      if Qis_int q && negb (Qltb q 0) then Some (Z.to_nat (Qfloor q)) else None
  | _ => None
  end.

Definition xabs (a : xnum) : xnum :=
  match a with
  | Fin q => fin (Qabs q)
  | NInf => PInf
  | _ => a
  end.

Definition xfloor (a : xnum) : xnum :=
  match a with
  | Fin q => fin (inject_Z (Qfloor q))
  | _ => a
  end.

Definition xmin (a b : xnum) : xnum :=
  match a, b with
  | XNaN, _ | _, XNaN => XNaN
  | _, _ => if xlt b a then b else a
  end.

Definition xmax (a b : xnum) : xnum :=
  match a, b with
  | XNaN, _ | _, XNaN => XNaN
  | _, _ => if xlt a b then b else a
  end.

(** [Math.pow]: exact for a finite base and an integer exponent, which is
    the only use the methods make of it ([Math.pow(b - mean, 2)]).  The
    other results are not rationals in general; this implementation answers
    NaN for them. *)
Definition xpow (a b : xnum) : xnum :=
  match a, b with
  | _, Fin q =>
      if Qis_zero q then fin 1
      else match a with
           | Fin p =>
               if Qis_int q then
                 if Qis_zero p && Qltb q 0 then PInf
                 else fin (Qpower p (Qfloor q))
               else XNaN
           | _ => XNaN
           end
  | _, _ => XNaN
  end.

Local Open Scope Q_scope.

(** The value of the double [Math.PI]. *)
Definition PI : Q := 884279719003555 # 281474976710656.

(** [x - x^3/3! + x^5/5! - ...], [terms] terms, from the term [t] of
    degree [2k - 1]. *)
Fixpoint sin_series (terms : nat) (k : Z) (x2 t : Q) : Q :=
  match terms with
  | O => 0
  | S terms' =>
      t + sin_series terms' (k + 1)%Z x2
            (Qred (- t * x2 / inject_Z (2 * k * (2 * k + 1))))
  end.

(** [Math.sin] is implementation-approximated; this one reduces the argument
    to [[-PI/2, PI/2]] and sums eight terms of the series (an error below
    1e-9). *)
Definition Qsin (q : Q) : Q :=
  let k := Qfloor ((q + PI) / (2 * PI)) in
  let r := Qred (q - inject_Z k * (2 * PI)) in
  let r := if Qltb (PI / 2) r then PI - r
           else if Qltb r (- (PI / 2)) then - PI - r else r in
  let r := Qred r in
  sin_series 8 1 (Qred (r * r)) r.

Definition xsin (a : xnum) : xnum :=
  match a with
  | Fin q => fin (Qsin q)
  | _ => XNaN
  end.

(** *** [parseFloat] on decimal text *)

Definition digit_of (c : ascii) : option Z :=
  let n := nat_of_ascii c in
  if Nat.leb 48 n && Nat.leb n 57 then Some (Z.of_nat (n - 48)) else None.

(** The leading decimal digits of [s] and the rest of [s]. *)
Fixpoint take_digits (s : string) : list Z * string :=
  match s with
  | EmptyString => ([], EmptyString)
  | String c s' =>
      match digit_of c with
      | Some d => let (ds, r) := take_digits s' in (d :: ds, r)%list
      | None => ([], s)
      end
  end.

Definition digits_value (ds : list Z) : Z :=
  fold_left (fun a d => 10 * a + d)%Z ds 0%Z.

(** An optional sign: its value and the rest of the text. *)
Definition take_sign (s : string) : Z * string :=
  match s with
  | String "+" s' => (1%Z, s')
  | String "-" s' => ((-1)%Z, s')
  | _ => (1%Z, s)
  end.

(** An optional exponent part [e], [e+] or [e-] followed by digits. *)
Definition take_exponent (s : string) : Z :=
  match s with
  | String c s' =>
      if Ascii.eqb c "e" || Ascii.eqb c "E" then
        let (sg, r) := take_sign s' in
        match fst (take_digits r) with
        | [] => 0%Z
        | ds => (sg * digits_value ds)%Z
        end
      else 0%Z
  | EmptyString => 0%Z
  end.

Definition xparseFloat (s : string) : xnum :=
  let (sg, r) := take_sign (trim_start s) in
  if String.prefix "Infinity" r then signed_inf sg
  else
    let (ip, r1) := take_digits r in
    let (fp, r2) :=
      match r1 with
      | String "." r1' => take_digits r1'
      | _ => ([], r1)
      end in
    match ip, fp with
    | [], [] => XNaN
    | _, _ =>
        let mantissa :=
          inject_Z (digits_value ip)
          + inject_Z (digits_value fp) / Qpower 10 (Z.of_nat (length fp)) in
        fin (inject_Z sg * mantissa * Qpower 10 (take_exponent r2))
    end.

#[export] Instance exact : JSNumber := {|
  num := xnum;
  lit := fin;
  Infinity := PInf;
  NegInfinity := NInf;
  add := xadd;
  sub := xsub;
  mul := xmul;
  div := xdiv;
  rem := xrem;
  lt := xlt;
  truthy := xtruthy;
  array_index := xindex;
  Math_PI := fin PI;
  Math_sin := xsin;
  Math_abs := xabs;
  Math_floor := xfloor;
  Math_pow := xpow;
  Math_min2 := xmin;
  Math_max2 := xmax;
  parseFloat := xparseFloat
|}.

End Exact.

(** ** Concrete inputs *)

Module Examples.
Import Exact.

(** One hundred samples that alternate between 30 and -30: in each window
    the mean is 0, the variance 900, the mean amplitude 30, the range 60 and
    the minimum -30. *)
Definition square_wave : list xnum :=
  map (fun i => if Nat.even i then fin 30 else fin (-30)) (seq 0 100).

Definition n2_recording : dataset num :=
  {| time := timeArray 100;
     channels := {[ "C3" := square_wave ]};
     sleepStages := Some (repeat "N2" 100);
     events := None;
     samples := None |}.

(** The same recording on another electrode. *)
Definition fp1_recording : dataset num :=
  {| time := timeArray 100;
     channels := {[ "Fp1" := square_wave ]};
     sleepStages := Some (repeat "N2" 100);
     events := None;
     samples := None |}.

(** A dataset with a channel C3 and no sample. *)
Definition empty_recording : dataset num :=
  {| time := [];
     channels := {[ "C3" := [] ]};
     sleepStages := Some [];
     events := Some [];
     samples := None |}.

(** A generator that always returns 0.875, and one that always returns
    0.125. *)
Definition tape_high : tape := fun _ => fin 0.875.
Definition tape_low : tape := fun _ => fin 0.125.

(** The two events the detector finds in [n2_recording] when every draw
    is 0.875. *)
Definition spindle_at_0 : event num :=
  {| ev_time := Some (fin 0);
     ev_type := "sleep_spindle";
     ev_description := "Sleep spindle detected";
     ev_confidence := Some (fin 0.9375);
     ev_frequency := Some (fin 15.5);
     ev_duration := Some (fin 1.8125);
     ev_amplitude := None |}.

Definition kcomplex_at_0 : event num :=
  {| ev_time := Some (fin 0);
     ev_type := "k_complex";
     ev_description := "K-complex detected";
     ev_confidence := Some (fin 0.93125);
     ev_frequency := None;
     ev_duration := None;
     ev_amplitude := Some (fin 30) |}.

(** A generator that returns 0.875 six times, then 0.125. *)
Definition tape_six_high : tape :=
  fun k => if Nat.ltb k 6 then fin 0.875 else fin 0.125.

Definition line_break : string := String newline EmptyString.

(** A header with two channels and one row that has a single value. *)
Definition csv_short_row : string := "t,a,b" ++ line_break ++ "1,2".

(** Three lines after the header; the second has a single field. *)
Definition csv_gap : string :=
  "t,a" ++ line_break ++ "1,2" ++ line_break ++ "x" ++ line_break ++ "3,4".

Definition csv_header_only : string := "t,a,b".

End Examples.

(** ** Vocabulary of the further properties *)

Section MoreVocabulary.
Context {N : JSNumber}.
Local Open Scope js_scope.

(** The types of the events one window can add, in the order of the three
    tests of the loop body. *)
Definition window_shapes : list (list string) :=
  [ []; ["sleep_spindle"]; ["k_complex"]; ["sleep_spindle"; "k_complex"];
    ["rem_burst"] ].

(** The events of the window that starts at [i]: one of the shapes above,
    each event with the time of sample [i]. *)
Definition window_part (d : dataset num) (i : nat) (part : list (event num))
    : Prop :=
  In (map ev_type part) window_shapes
  /\ forall e, In e part -> ev_time e = time d !! i.

(** The number of samples the channel generator synthesizes for stage N2. *)
Definition n2_count (samples : nat) : nat :=
  length (filter (fun i => channelStage samples i = "N2") (seq 0 samples)).

(** The events [generateSleepEvents] adds at index [i]: one of the shapes
    of [window_shapes]; each event has the time of sample [i], is allowed by
    the stage of sample [i] and has no confidence. *)
Definition scheduled_part (times : list num) (stages : list string) (i : nat)
    (part : list (event num)) : Prop :=
  In (map ev_type part) window_shapes
  /\ forall e, In e part ->
       ev_time e = times !! i /\ gated (stages !! i) e
       /\ ev_confidence e = None.

(** The value the parser stores for the field [j] of line [i]. *)
Definition csv_cell (lines : list string) (i j : nat) : num :=
  num_or (parseFloat (nth j (row_values lines i) "")) (lit 0).





End MoreVocabulary.

(** ** Further concrete inputs *)

Module MoreExamples.
Import Exact.

(** The header [t,C3] followed by [rows] lines [1,2]. *)
Fixpoint csv_c3_lines (rows : nat) : string :=
  match rows with
  | O => EmptyString
  | S rows' => String newline ("1,2" ++ csv_c3_lines rows')
  end.

Definition csv_c3 (rows : nat) : string := "t,C3" ++ csv_c3_lines rows.

(** Two channels and three full lines; one cell is not a number. *)
Definition csv_full : string :=
  "t,a,b" ++ Examples.line_break ++ "0,1.5,2" ++ Examples.line_break
  ++ "1,x,-4" ++ Examples.line_break ++ "2,3e1,6".


(** A line without its last field, and a line with an empty field and a
    hexadecimal one. *)
Definition csv_mixed : string :=
  "t,a,b" ++ Examples.line_break ++ "1,x" ++ Examples.line_break
  ++ ",0x1F,7".

End MoreExamples.

(** * Further methods of the monitor *)

(** ** Further operations on Numbers *)

(** The operations of the further methods that [JSNumber] does not list. *)
Class JSNumberExt {N : JSNumber} := {
  (** [a <= b]; it is not [!(b < a)], both are false when an operand is
      NaN *)
  lte : num -> num -> bool;
  Math_ceil : num -> num
}.

Section MoreModel.
Context {N : JSNumber} {C : JSNumberExt}.
Local Open Scope js_scope.

(** ** Region plots and region metrics *)

Definition generateRegionalSignal (t : num) (region : string) : JS num :=
  let signal := lit 0 in
  let signal :=
    if String.eqb region "frontal" then
      signal + wave 18 t 15 + wave 25 t 8
    else if String.eqb region "temporal" then
      signal + wave 6 t 20 + wave 12 t 12
    else if String.eqb region "parietal" then
      signal + wave 10 t 18 + wave 15 t 10
    else if String.eqb region "occipital" then
      signal + wave 9 t 25 + wave 11 t 15
    else signal in
  r <- Math_random ;;
  ret (signal + (r - lit 0.5) * lit 8).

(** The argument [data] is not read. *)
Definition calculateDominantFrequency (data : list num) : JS num :=
  region <- Math_random ;;
  if region <? lit 0.25 then r <- Math_random ;; ret (lit 2 + r * lit 2)
  else if region <? lit 0.5 then r <- Math_random ;; ret (lit 6 + r * lit 2)
  else if region <? lit 0.75 then r <- Math_random ;; ret (lit 9 + r * lit 3)
  else r <- Math_random ;; ret (lit 15 + r * lit 10).

Definition getFrequencyBandName (freq : num) : string :=
  if lte freq (lit 4) then "Delta"
  else if lte freq (lit 8) then "Theta"
  else if lte freq (lit 12) then "Alpha"
  else if lte freq (lit 30) then "Beta"
  else "Gamma".


(** ** The time cursor *)

(** The first two lines of [updateTimePosition]: the new value of
    [this.currentTimeIndex] and [timeInSeconds]. *)
Definition updateTimePosition (timeIndex maxTime : num) : num * num :=
  let currentTimeIndex := Math_max2 (lit 0) (Math_min2 timeIndex maxTime) in
  let timeInSeconds := currentTimeIndex / lit 10 in
  (currentTimeIndex, timeInSeconds).

(** [startIndex] and [endIndex] of [updateMainEEGPlot]; [timeLength] is
    [this.data.time.length]. *)
Definition mainPlotWindow (currentTimeIndex : num) (timeLength : nat)
    : num * num :=
  let windowSize := lit 300 in
  let startIndex := Math_max2 (lit 0) (currentTimeIndex - windowSize / lit 2) in
  let endIndex := Math_min2 (of_nat timeLength) (startIndex + windowSize) in
  (startIndex, endIndex).

(** ** Playback *)

(** The assignment to [this.currentTimeIndex] in the loop of
    [startRealTimePlayback]. *)
Definition startRealTimePlayback_step (currentTimeIndex playSpeed maxTime : num)
    : num :=
  (currentTimeIndex + Math_ceil playSpeed) mod maxTime.

(** The assignment to [this.currentTimeIndex] in the loop of [startPlayback],
    the playback of the brain visualizer. *)
Definition startPlayback_step (currentTimeIndex maxTime : num) : num :=
  (currentTimeIndex + lit 1) mod (maxTime + lit 1).

End MoreModel.

(** ** The further operations on exact numbers *)

Module ExactExt.
Import Exact.

Definition xle (a b : xnum) : bool :=
  match a, b with
  | XNaN, _ | _, XNaN => false
  | Fin p, Fin q => Qle_bool p q
  | NInf, _ => true
  | _, PInf => true
  | _, _ => false
  end.

Definition xceil (a : xnum) : xnum :=
  match a with
  | Fin q => fin (inject_Z (Qceiling q))
  | _ => a
  end.

#[export] Instance exact_ext : JSNumberExt (N := exact) := {|
  lte := xle;
  Math_ceil := xceil
|}.

End ExactExt.

(** * The visualizer's CSV parser: [parseCSV] *)

(** ** [isNaN] on strings *)

(** [isNaN(s)] converts the string with ToNumber: the string, white space
    trimmed, is a number when it is empty (0) or a StringNumericLiteral: an
    optional sign followed by [Infinity] or by decimal digits with an
    optional fraction and an optional exponent, or an unsigned binary, octal
    or hexadecimal integer literal. *)
Definition in_range (lo hi : nat) (c : ascii) : bool :=
  let n := nat_of_ascii c in Nat.leb lo n && Nat.leb n hi.

Definition is_digit (c : ascii) : bool := in_range 48 57 c.
Definition is_binary_digit (c : ascii) : bool := in_range 48 49 c.
Definition is_octal_digit (c : ascii) : bool := in_range 48 55 c.
Definition is_hex_digit (c : ascii) : bool :=
  is_digit c || in_range 65 70 c || in_range 97 102 c.

Definition is_char (c : ascii) (s : string) : bool :=
  String.eqb (String c EmptyString) s.

Fixpoint skip_digits (s : string) : string :=
  match s with
  | String c s' => if is_digit c then skip_digits s' else s
  | EmptyString => EmptyString
  end.

Fixpoint all_chars (p : ascii -> bool) (s : string) : bool :=
  match s with
  | String c s' => p c && all_chars p s'
  | EmptyString => true
  end.

(** One digit or more, and nothing else. *)
Definition digits1 (p : ascii -> bool) (s : string) : bool :=
  match s with
  | EmptyString => false
  | _ => all_chars p s
  end.

Definition starts_with_digit (s : string) : bool :=
  match s with
  | String c _ => is_digit c
  | EmptyString => false
  end.

(** Nothing, or [e] or [E], an optional sign and digits. *)
Definition exponent_opt (s : string) : bool :=
  match s with
  | EmptyString => true
  | String c s' =>
      (is_char c "e" || is_char c "E")
      && match s' with
         | String sg s'' =>
             if is_char sg "+" || is_char sg "-" then digits1 is_digit s''
             else digits1 is_digit s'
         | EmptyString => false
         end
  end.

(** StrUnsignedDecimalLiteral *)
Definition unsigned_decimal (s : string) : bool :=
  if String.eqb s "Infinity" then true
  else
    match skip_digits s with
    | String c r1 =>
        if is_char c "." then
          (starts_with_digit s || starts_with_digit r1)
          && exponent_opt (skip_digits r1)
        else starts_with_digit s && exponent_opt (String c r1)
    | EmptyString => starts_with_digit s
    end.

(** NonDecimalIntegerLiteral *)
Definition non_decimal_integer (s : string) : bool :=
  match s with
  | String z (String c r) =>
      is_char z "0"
      && (if is_char c "x" || is_char c "X" then digits1 is_hex_digit r
          else if is_char c "o" || is_char c "O" then digits1 is_octal_digit r
          else if is_char c "b" || is_char c "B" then digits1 is_binary_digit r
          else false)
  | _ => false
  end.

Definition str_numeric_literal (s : string) : bool :=
  non_decimal_integer s
  || match s with
     | String c s' =>
         if is_char c "+" || is_char c "-" then unsigned_decimal s'
         else unsigned_decimal s
     | EmptyString => false
     end.

Definition isNaN_string (s : string) : bool :=
  match trim s with
  | EmptyString => false
  | t => negb (str_numeric_literal t)
  end.

(** ** Rows *)

(** The value of a property of a row: a Number, a string or [undefined]. *)
Inductive cell (T : Type) : Type :=
| CNumber (x : T)
| CString (s : string)
| CUndefined.
Arguments CNumber {T} x.
Arguments CString {T} s.
Arguments CUndefined {T}.

(** The object [{ headers, data }] that [parseCSV] returns. *)
Record csv_table (T : Type) : Type := {
  tbl_headers : list string;
  tbl_data : list (gmap string (cell T))
}.
Arguments tbl_headers {T} _.
Arguments tbl_data {T} _.

(** [obj[key] = value] on an object literal, for a primitive [value]: an own
    property, except for the key [__proto__], whose setter ignores a value
    that is neither an object nor [null]. *)
Definition set_property {A} (key : string) (value : A)
    (obj : gmap string A) : gmap string A :=
  if String.eqb key "__proto__" then obj else <[key := value]> obj.

Section SecondParser.
Context {N : JSNumber}.

(** [isNaN(value) ? value : parseFloat(value)], where [value] is
    [values[index]]: [undefined] when the line has no such field. *)
Definition parseCSV_cell (value : option string) : cell num :=
  match value with
  | None => CUndefined
  | Some s => if isNaN_string s then CString s else CNumber (parseFloat s)
  end.

(** [headers.forEach((header, index) => { row[header] = ... })] *)
Definition parseCSV_row (headers values : list string)
    : gmap string (cell num) :=
  fold_left
    (fun row index =>
       let header := nth index headers "" in
       set_property header (parseCSV_cell (values !! index)) row)
    (seq 0 (length headers)) ∅.

Definition parseCSV (csvText : string) : csv_table num :=
  let lines := split newline (trim csvText) in
  let headers := map trim (split comma (nth 0 lines "")) in
  let data :=
    map (fun i =>
           let values := map trim (split comma (nth i lines "")) in
           parseCSV_row headers values)
      (seq 1 (length lines - 1)) in
  {| tbl_headers := headers; tbl_data := data |}.

End SecondParser.

(** * The stage display *)

(** The names held by [this.sleepStages]; the object has no entry for
    ['Wake']. *)
Definition sleepStageNames : list (string * string) :=
  [ ("N1", "NREM Stage 1"); ("N2", "NREM Stage 2");
    ("N3", "NREM Stage 3"); ("REM", "REM Sleep") ].

(** [this.sleepStages[currentStage]?.name], for a stage that is not a
    property of [Object.prototype]. *)
Definition stageName (currentStage : string) : option string :=
  match find (fun kv => String.eqb (fst kv) currentStage) sleepStageNames with
  | Some kv => Some (snd kv)
  | None => None
  end.

Section StageDisplay.
Context {N : JSNumber}.

(** [updateSleepStageDisplay]: the text written to [current-stage-name], or
    [None] when [stageInfo] is [undefined] and nothing is written.  In
    [this.data?.sleepStages[this.currentTimeIndex]] the optional chain only
    guards [this.data]: a dataset without [sleepStages] raises a
    TypeError. *)
Definition updateSleepStageDisplay (data : option (dataset num))
    (currentTimeIndex : num) : completion (option string) :=
  match data with
  | None => Normal (stageName "N2")
  | Some d =>
      match sleepStages d with
      | None => Throw "TypeError"
      | Some stages =>
          let currentStage :=
            string_or (at_index stages currentTimeIndex) "N2" in
          Normal (stageName currentStage)
      end
  end.

End StageDisplay.

(** * The sleep score *)

Section SleepScore.
Context {N : JSNumber}.
Local Open Scope js_scope.

(** [updateSleepQualityScore]: the score and the confidence it writes to
    [sleep-score] and [stage-confidence]. *)
Definition updateSleepQualityScore : JS (num * num) :=
  r <- Math_random ;;
  let score := lit 85 + Math_floor (r * lit 10) in
  r <- Math_random ;;
  let confidence := lit 85 + Math_floor (r * lit 15) in
  ret (score, confidence).

End SleepScore.

(** * Properties *)

(** ** The loop counter *)

Lemma counter_values_In (step : nat) (bound : Z) (fuel i x : nat) :
  In x (counter_values fuel i step bound) ->
  (exists k, x = i + k * step) /\ (Z.of_nat x < bound)%Z.
Proof.
  revert i. induction fuel as [|fuel IH]; intros i; simpl; [tauto|].
  destruct (Z.ltb_spec (Z.of_nat i) bound) as [Hlt|Hge]; simpl; [|tauto].
  intros [<-|Hin].
  - split; [exists 0; lia | exact Hlt].
  - destruct (IH _ Hin) as [[k ->] Hb]. split; [exists (S k); lia | exact Hb].
Qed.

Lemma counter_values_complete (step : nat) (bound : Z) (fuel i k : nat) :
  1 <= step ->
  (bound - Z.of_nat i <= Z.of_nat fuel)%Z ->
  (Z.of_nat (i + k * step) < bound)%Z ->
  In (i + k * step) (counter_values fuel i step bound).
Proof.
  intros Hstep. revert i k. induction fuel as [|fuel IH]; intros i k Hfuel Hlt.
  - lia.
  - simpl. destruct (Z.ltb_spec (Z.of_nat i) bound) as [Hi|Hi]; [|nia].
    destruct k as [|k]; [left; lia|]. right.
    replace (i + S k * step) with ((i + step) + k * step) in * by lia.
    apply IH; [lia | exact Hlt].
Qed.

(** The fuel does not matter once it covers the distance to the bound: the
    loop stops on its own test. *)
Lemma counter_values_fuel (step : nat) (bound : Z) (fuel1 fuel2 i : nat) :
  1 <= step ->
  (bound - Z.of_nat i <= Z.of_nat fuel1)%Z ->
  (bound - Z.of_nat i <= Z.of_nat fuel2)%Z ->
  counter_values fuel1 i step bound = counter_values fuel2 i step bound.
Proof.
  intros Hstep. revert fuel2 i.
  induction fuel1 as [|fuel1 IH]; intros [|fuel2] i H1 H2; simpl; try reflexivity.
  - destruct (Z.ltb_spec (Z.of_nat i) bound); [lia | reflexivity].
  - destruct (Z.ltb_spec (Z.of_nat i) bound); [lia | reflexivity].
  - destruct (Z.ltb_spec (Z.of_nat i) bound); [|reflexivity].
    f_equal. apply IH; lia.
Qed.

Lemma for_counter_fuel (step : nat) (bound : Z) (fuel : nat) :
  1 <= step -> Z.to_nat bound <= fuel ->
  counter_values fuel 0 step bound = for_counter 0 step bound.
Proof.
  intros Hstep Hfuel. unfold for_counter.
  apply counter_values_fuel; [exact Hstep | lia | lia].
Qed.

Lemma for_counter_In (step : nat) (bound : Z) (x : nat) :
  1 <= step ->
  In x (for_counter 0 step bound) <->
  (exists k, x = k * step) /\ (Z.of_nat x < bound)%Z.
Proof.
  intros Hstep. unfold for_counter. split.
  - intros Hin. apply counter_values_In in Hin. exact Hin.
  - intros [[k ->] Hlt]. apply (counter_values_complete step bound _ 0 k); lia.
Qed.

Lemma windowStarts_In (windowSize len i : nat) :
  1 <= windowSize ->
  In i (windowStarts windowSize len) <->
  (exists k, i = k * windowSize) /\ i + windowSize < len.
Proof.
  intros HW. unfold windowStarts. rewrite for_counter_In by exact HW.
  split; intros [Hk Hlt]; (split; [exact Hk | lia]).
Qed.

(** ** The computation monad *)

Section MonadFacts.
Context {N : JSNumber}.

Lemma bind_Normal {A B} (c : JS A) (k : A -> JS B) tp n b n' :
  bind c k tp n = (Normal b, n') ->
  exists a n1, c tp n = (Normal a, n1) /\ k a tp n1 = (Normal b, n').
Proof.
  unfold bind. destruct (c tp n) as [[a|e] n1]; [|discriminate].
  intros H. exists a, n1. split; [reflexivity | exact H].
Qed.

Lemma foldM_invariant {A B} (f : B -> A -> JS A) (P : A -> Prop) (l : list B) :
  (forall x a tp n a' n',
      In x l -> P a -> f x a tp n = (Normal a', n') -> P a') ->
  forall a tp n a' n',
    P a -> foldM f l a tp n = (Normal a', n') -> P a'.
Proof.
  induction l as [|x l IH]; intros Hstep a tp n a' n' Pa H; simpl in H.
  - unfold ret in H. congruence.
  - apply bind_Normal in H as (a1 & n1 & H1 & H).
    eapply IH; [| |exact H].
    + intros y b tp0 m b' m' Hy. apply Hstep. right. exact Hy.
    + eapply Hstep; [left; reflexivity | exact Pa | exact H1].
Qed.

Lemma completes_ret {A} (a : A) : completes_normally (ret a).
Proof. intros tp n. exists a, n. reflexivity. Qed.

Lemma completes_random : completes_normally Math_random.
Proof. intros tp n. exists (tp n), (S n). reflexivity. Qed.

Lemma completes_bind {A B} (c : JS A) (k : A -> JS B) :
  completes_normally c -> (forall a, completes_normally (k a)) ->
  completes_normally (bind c k).
Proof.
  intros Hc Hk tp n. destruct (Hc tp n) as (a & n1 & Ha).
  destruct (Hk a tp n1) as (b & n2 & Hb).
  exists b, n2. unfold bind. rewrite Ha. exact Hb.
Qed.

Lemma completes_andM (b : bool) (c : JS bool) :
  completes_normally c -> completes_normally (andM b c).
Proof. intros Hc. destruct b; simpl; [exact Hc | apply completes_ret]. Qed.

Lemma completes_if {A} (b : bool) (c1 c2 : JS A) :
  completes_normally c1 -> completes_normally c2 ->
  completes_normally (if b then c1 else c2).
Proof. destruct b; tauto. Qed.

Lemma completes_foldM {A B} (f : B -> A -> JS A) (l : list B) :
  (forall x a, In x l -> completes_normally (f x a)) ->
  forall a, completes_normally (foldM f l a).
Proof.
  induction l as [|x l IH]; intros Hf a; simpl.
  - apply completes_ret.
  - apply completes_bind; [apply Hf; left; reflexivity|].
    intros a'. apply IH. intros y b Hy. apply Hf. right. exact Hy.
Qed.

Lemma completes_mapM {A B} (f : A -> JS B) (l : list A) :
  (forall x, completes_normally (f x)) -> completes_normally (mapM f l).
Proof.
  intros Hf. induction l as [|x l IH]; simpl.
  - apply completes_ret.
  - apply completes_bind; [apply Hf|]. intros y.
    apply completes_bind; [exact IH|]. intros ys. apply completes_ret.
Qed.

Lemma local_ret {A} (a : A) : draw_local (ret a).
Proof.
  intros tp1 tp2 n r n' H. unfold ret in *. injection H as <- <-.
  split; [lia | reflexivity].
Qed.

Lemma local_throw {A} (e : string) : draw_local (throw (A := A) e).
Proof.
  intros tp1 tp2 n r n' H. unfold throw in *. injection H as <- <-.
  split; [lia | reflexivity].
Qed.

Lemma local_random : draw_local Math_random.
Proof.
  intros tp1 tp2 n r n' H. unfold Math_random in *. injection H as <- <-.
  split; [lia|]. intros Hag. rewrite (Hag n) by lia. reflexivity.
Qed.

Lemma local_bind {A B} (c : JS A) (k : A -> JS B) :
  draw_local c -> (forall a, draw_local (k a)) -> draw_local (bind c k).
Proof.
  intros Hc Hk tp1 tp2 n r n' H. unfold bind in *.
  destruct (c tp1 n) as [[a|e] n1] eqn:Hc1.
  - destruct (Hc _ tp2 _ _ _ Hc1) as [Hle1 Hc2].
    destruct (Hk a _ tp2 _ _ _ H) as [Hle2 Hk2].
    split; [lia|]. intros Hag.
    rewrite Hc2 by (intros j Hj; apply Hag; lia).
    apply Hk2. intros j Hj. apply Hag. lia.
  - injection H as <- <-.
    destruct (Hc _ tp2 _ _ _ Hc1) as [Hle1 Hc2].
    split; [exact Hle1|]. intros Hag. rewrite Hc2 by exact Hag. reflexivity.
Qed.

Lemma local_andM (b : bool) (c : JS bool) :
  draw_local c -> draw_local (andM b c).
Proof. intros Hc. destruct b; simpl; [exact Hc | apply local_ret]. Qed.

Lemma local_if {A} (b : bool) (c1 c2 : JS A) :
  draw_local c1 -> draw_local c2 -> draw_local (if b then c1 else c2).
Proof. destruct b; tauto. Qed.

Lemma local_foldM {A B} (f : B -> A -> JS A) (l : list B) :
  (forall x a, draw_local (f x a)) -> forall a, draw_local (foldM f l a).
Proof.
  intros Hf. induction l as [|x l IH]; intros a; simpl.
  - apply local_ret.
  - apply local_bind; [apply Hf | exact IH].
Qed.

Lemma local_mapM {A B} (f : A -> JS B) (l : list A) :
  (forall x, draw_local (f x)) -> draw_local (mapM f l).
Proof.
  intros Hf. induction l as [|x l IH]; simpl.
  - apply local_ret.
  - apply local_bind; [apply Hf|]. intros y.
    apply local_bind; [exact IH|]. intros ys. apply local_ret.
Qed.

End MonadFacts.

Create HintDb js_total.

#[global] Hint Resolve completes_ret completes_random completes_bind
  completes_andM completes_if completes_foldM completes_mapM : js_total.

(** Steps of a proof of [draw_local], one per construct of a method. *)
Ltac local_steps :=
  repeat first
    [ apply local_ret
    | apply local_random
    | apply local_throw
    | apply local_bind; [|intros ?]
    | apply local_andM
    | apply local_if
    | apply local_foldM; intros ? ?
    | apply local_mapM; intros ?
    | assumption ].

(** ** The detector *)

Section DetectorFacts.
Context {N : JSNumber}.

Lemma stage_is_true (stage : option string) (label : string) :
  stage_is stage label = true -> stage = Some label.
Proof.
  destruct stage as [s|]; simpl; [|discriminate].
  intros H. apply String.eqb_eq in H. congruence.
Qed.

Lemma andM_true (b : bool) (c : JS bool) tp n n' :
  andM b c tp n = (Normal true, n') -> b = true.
Proof. destruct b; [reflexivity|]. simpl. unfold ret. congruence. Qed.

(** What one window adds to the event list: at most one event of each type,
    each with the time of the first sample of the window and each allowed
    by the stage of that sample. *)
Lemma scanWindow_spec (d : dataset num) (channelData : list num)
    (windowSize i : nat) (events : list (event num)) tp n evs' n' :
  scanWindow d channelData windowSize i events tp n = (Normal evs', n') ->
  exists stages new,
    sleepStages d = Some stages /\
    evs' = events ++ new /\
    Forall (fun e => ev_time e = time d !! i /\ gated (stages !! i) e) new.
Proof.
  unfold scanWindow. destruct (sleepStages d) as [stages|]; [|discriminate].
  intros H. exists stages.
  apply bind_Normal in H as (b1 & n1 & Hb1 & H).
  apply bind_Normal in H as (ev1 & n2 & He1 & H).
  apply bind_Normal in H as (b2 & n3 & Hb2 & H).
  apply bind_Normal in H as (ev2 & n4 & He2 & H).
  apply bind_Normal in H as (b3 & n5 & Hb3 & H).
  assert (exists new1, ev1 = events ++ new1 /\
            Forall (fun e => ev_time e = time d !! i /\ gated (stages !! i) e) new1)
    as (new1 & -> & F1).
  { destruct b1.
    - apply andM_true, stage_is_true in Hb1.
      unfold bind, Math_random, ret in He1. injection He1 as <- _.
      eexists. split; [reflexivity|].
      constructor; [simpl | constructor]. split; [reflexivity|].
      left. split; [left; reflexivity | exact Hb1].
    - unfold ret in He1. injection He1 as <- _.
      exists []. split; [symmetry; apply app_nil_r | constructor]. }
  assert (exists new2, ev2 = (events ++ new1) ++ new2 /\
            Forall (fun e => ev_time e = time d !! i /\ gated (stages !! i) e) new2)
    as (new2 & -> & F2).
  { destruct b2.
    - apply andM_true, stage_is_true in Hb2.
      unfold bind, Math_random, ret in He2. injection He2 as <- _.
      eexists. split; [reflexivity|].
      constructor; [simpl | constructor]. split; [reflexivity|].
      left. split; [right; reflexivity | exact Hb2].
    - unfold ret in He2. injection He2 as <- _.
      exists []. split; [symmetry; apply app_nil_r | constructor]. }
  assert (exists new3, evs' = ((events ++ new1) ++ new2) ++ new3 /\
            Forall (fun e => ev_time e = time d !! i /\ gated (stages !! i) e) new3)
    as (new3 & -> & F3).
  { destruct b3.
    - apply andM_true, stage_is_true in Hb3.
      unfold bind, Math_random, ret in H. injection H as <- _.
      eexists. split; [reflexivity|].
      constructor; [simpl | constructor]. split; [reflexivity|].
      right. split; [reflexivity | exact Hb3].
    - unfold ret in H. injection H as <- _.
      exists []. split; [symmetry; apply app_nil_r | constructor]. }
  exists (new1 ++ new2 ++ new3). split; [reflexivity|]. split.
  - rewrite <- !app_assoc. reflexivity.
  - rewrite !Forall_app. tauto.
Qed.

(** The events of a run all come from scanned windows. *)
Lemma detectEvents_spec (windowSize : nat) (d : dataset num) tp n evs n' :
  detectEvents windowSize (Some d) tp n = (Normal evs, n') ->
  forall e, In e evs ->
    exists channelData stages i,
      channels d !! "C3" = Some channelData /\
      sleepStages d = Some stages /\
      In i (windowStarts windowSize (length channelData)) /\
      ev_time e = time d !! i /\
      gated (stages !! i) e.
Proof.
  unfold detectEvents. destruct (channels d !! "C3") as [channelData|] eqn:HC.
  - intros H.
    eapply (foldM_invariant (scanWindow d channelData windowSize)
              (fun evs => forall e, In e evs ->
                 exists channelData' stages i,
                   Some channelData = Some channelData' /\
                   sleepStages d = Some stages /\
                   In i (windowStarts windowSize (length channelData')) /\
                   ev_time e = time d !! i /\ gated (stages !! i) e));
      [ | | exact H].
    + intros i events tp0 m evs' m' Hi IHev Hstep e He.
      apply scanWindow_spec in Hstep as (stages & new & Hs & -> & Hnew).
      apply in_app_iff in He as [He|He]; [apply IHev; exact He|].
      rewrite Forall_forall in Hnew.
      destruct (Hnew e) as [Ht Hg]; [apply list_elem_of_In; exact He|].
      exists channelData, stages, i. tauto.
    + intros e [].
  - unfold ret. intros H. injection H as <- _. intros e [].
Qed.

Lemma gated_not_N2 (stage : option string) (e : event num) :
  gated stage e -> stage <> Some "N2" ->
  ev_type e <> "sleep_spindle" /\ ev_type e <> "k_complex".
Proof.
  intros [[_ Hs]|[Ht _]] Hne; [contradiction|].
  rewrite Ht. split; discriminate.
Qed.

Lemma gated_not_REM (stage : option string) (e : event num) :
  gated stage e -> stage <> Some "REM" -> ev_type e <> "rem_burst".
Proof.
  intros [[[Ht|Ht] _]|[_ Hs]] Hne; [rewrite Ht; discriminate ..|contradiction].
Qed.

Lemma detectSpindle_completes (window : list num) :
  completes_normally (detectSpindle window).
Proof. unfold detectSpindle. auto 6 with js_total. Qed.

Lemma detectKComplex_completes (window : list num) :
  completes_normally (detectKComplex window).
Proof. unfold detectKComplex. auto 6 with js_total. Qed.

Lemma detectREMBurst_completes (window : list num) :
  completes_normally (detectREMBurst window).
Proof. unfold detectREMBurst. auto 6 with js_total. Qed.

Lemma scanWindow_completes (d : dataset num) (channelData : list num)
    (windowSize i : nat) (events : list (event num)) :
  sleepStages d <> None ->
  completes_normally (scanWindow d channelData windowSize i events).
Proof.
  unfold scanWindow. destruct (sleepStages d) as [stages|]; [intros _|congruence].
  pose proof detectSpindle_completes. pose proof detectKComplex_completes.
  pose proof detectREMBurst_completes.
  repeat first
    [ apply completes_bind; [|intros ?]
    | apply completes_andM
    | apply completes_if
    | apply completes_ret
    | apply completes_random
    | solve [auto] ].
Qed.

(** With a stage array the detector returns an event list, whatever the
    generator yields. *)
Lemma detectEvents_completes (windowSize : nat) (data : option (dataset num)) :
  (forall d, data = Some d -> sleepStages d <> None) ->
  completes_normally (detectEvents windowSize data).
Proof.
  intros Hs. unfold detectEvents. destruct data as [d|]; [|apply completes_ret].
  destruct (channels d !! "C3") as [channelData|]; [|apply completes_ret].
  apply completes_foldM. intros i events _.
  apply scanWindow_completes. apply Hs. reflexivity.
Qed.

(** The window loop does not run on a series of at most [windowSize]
    samples. *)
Lemma windowStarts_short (windowSize len : nat) :
  len <= windowSize -> windowStarts windowSize len = [].
Proof.
  intros Hle. unfold windowStarts, for_counter.
  replace (Z.to_nat (Z.of_nat len - Z.of_nat windowSize)) with 0 by lia.
  reflexivity.
Qed.

(** On a dataset without stage array, such as one built by [parseCSVData],
    the first window raises the TypeError of [this.data.sleepStages[i]]. *)
Lemma detectEvents_without_stages (windowSize : nat) (d : dataset num)
    (channelData : list num) tp n :
  sleepStages d = None ->
  channels d !! "C3" = Some channelData ->
  windowSize < length channelData ->
  detectEvents windowSize (Some d) tp n = (Throw "TypeError", n).
Proof.
  intros Hs HC Hlen. unfold detectEvents. rewrite HC.
  unfold windowStarts, for_counter.
  destruct (Z.to_nat (Z.of_nat (length channelData) - Z.of_nat windowSize))
    as [|fuel] eqn:Hf; [lia|].
  cbn [counter_values].
  destruct (Z.ltb_spec (Z.of_nat 0)
              (Z.of_nat (length channelData) - Z.of_nat windowSize)); [|lia].
  cbn [foldM]. unfold bind, scanWindow. rewrite Hs. reflexivity.
Qed.

End DetectorFacts.

(** ** Stage gating of the detected events *)

(** C1.  Every event the detector returns carries the time of the first
    sample of a scanned window, and the stage at that sample is N2 when the
    event is a sleep spindle or a K-complex and REM when it is a REM burst
    (there is no other type of event).  Window by window: a window whose
    first-sample stage is not N2 adds no spindle and no K-complex, one whose
    stage is not REM adds no REM burst.  On a dataset that has a stage array
    the detector does return. *)
Theorem detection_stage_gating {N : JSNumber}
    (d : dataset num) (tp : tape) (n n' : nat) (evs : list (event num)) :
  runSleepEventDetection (Some d) tp n = (Normal evs, n') ->
  (forall e, In e evs ->
     exists channelData stages i,
       channels d !! "C3" = Some channelData /\
       sleepStages d = Some stages /\
       In i (windowStarts 50 (length channelData)) /\
       ev_time e = time d !! i /\
       gated (stages !! i) e)
  /\ (forall channelData stages i events tp0 m evs' m',
        sleepStages d = Some stages ->
        scanWindow d channelData 50 i events tp0 m = (Normal evs', m') ->
        exists new,
          evs' = events ++ new /\
          (stages !! i <> Some "N2" ->
           forall e, In e new ->
             ev_type e <> "sleep_spindle" /\ ev_type e <> "k_complex") /\
          (stages !! i <> Some "REM" ->
           forall e, In e new -> ev_type e <> "rem_burst"))
  /\ (sleepStages d <> None ->
      completes_normally (runSleepEventDetection (Some d))).
Proof.
  intros Hrun. split; [|split].
  - exact (detectEvents_spec 50 d tp n evs n' Hrun).
  - intros channelData stages i events tp0 m evs' m' Hs Hstep.
    apply scanWindow_spec in Hstep as (stages' & new & Hs' & -> & Hnew).
    assert (stages' = stages) as -> by congruence.
    rewrite Forall_forall in Hnew. exists new. split; [reflexivity|].
    split; intros Hne e He;
      destruct (Hnew e) as [_ Hg]; try (apply list_elem_of_In; exact He).
    + exact (gated_not_N2 _ _ Hg Hne).
    + exact (gated_not_REM _ _ Hg Hne).
  - intros Hs. apply detectEvents_completes. intros d' [= <-]. exact Hs.
Qed.

Lemma detection_stage_gating_witness :
  runSleepEventDetection (Some Examples.n2_recording) Examples.tape_high 0
    = (Normal [Examples.spindle_at_0; Examples.kcomplex_at_0], 6)
  /\ forall e, In e [Examples.spindle_at_0; Examples.kcomplex_at_0] ->
       exists channelData stages i,
         channels Examples.n2_recording !! "C3" = Some channelData /\
         sleepStages Examples.n2_recording = Some stages /\
         In i (windowStarts 50 (length channelData)) /\
         ev_time e = time Examples.n2_recording !! i /\
         gated (stages !! i) e.
Proof.
  assert (H : runSleepEventDetection (Some Examples.n2_recording)
                Examples.tape_high 0
              = (Normal [Examples.spindle_at_0; Examples.kcomplex_at_0], 6))
    by (vm_compute; reflexivity).
  split; [exact H|].
  exact (proj1 (detection_stage_gating _ _ _ _ _ H)).
Defined.

(** ** Which windows are scanned *)

(** C10.  For a window size of at least one sample, the loop of the detector
    visits exactly the multiples [i] of the window size with
    [i + windowSize < len]: a scanned window never contains the last sample,
    the window that starts at [len - windowSize] is never scanned (when
    [len] is a multiple of the window size this is the last complete
    window), every returned event carries the time of a scanned window
    start, and on a time array without repetition no event carries the time
    of the sample [len - windowSize]. *)
Theorem window_scan_bounds {N : JSNumber} (windowSize len : nat) :
  1 <= windowSize ->
  (forall i, In i (windowStarts windowSize len) <->
             (exists k, i = k * windowSize) /\ i + windowSize < len)
  /\ (forall i j, In i (windowStarts windowSize len) ->
                  i <= j < i + windowSize -> j < len - 1)
  /\ ~ In (len - windowSize) (windowStarts windowSize len)
  /\ (forall d channelData tp n evs n',
        channels d !! "C3" = Some channelData ->
        length channelData = len ->
        detectEvents windowSize (Some d) tp n = (Normal evs, n') ->
        forall e, In e evs ->
          (exists i, In i (windowStarts windowSize len) /\
                     ev_time e = time d !! i)
          /\ (NoDup (time d) -> length (time d) = len ->
              ev_time e <> time d !! (len - windowSize))).
Proof.
  intros HW.
  assert (Hin : forall i, In i (windowStarts windowSize len) <->
            (exists k, i = k * windowSize) /\ i + windowSize < len)
    by (intros i; apply windowStarts_In; exact HW).
  split; [exact Hin|]. split; [|split].
  - intros i j Hi Hj. apply Hin in Hi as [_ Hlt]. lia.
  - intros Hi. apply Hin in Hi as [_ Hlt]. lia.
  - intros d channelData tp n evs n' HC Hlen Hrun e He.
    destruct (detectEvents_spec _ _ _ _ _ _ Hrun e He)
      as (cd & stages & i & HC' & _ & Hi & Ht & _).
    assert (cd = channelData) as -> by congruence.
    rewrite Hlen in Hi. split; [exists i; split; assumption|].
    intros Hnd Htime Heq. apply Hin in Hi as [_ Hlt].
    rewrite Ht in Heq.
    destruct (lookup_lt_is_Some_2 (time d) i) as [x Hx]; [lia|].
    rewrite Hx in Heq. symmetry in Heq.
    pose proof (NoDup_lookup _ _ _ _ Hnd Hx Heq). lia.
Qed.

Lemma window_scan_bounds_witness :
  (forall i, In i (windowStarts 50 100) <->
             (exists k, i = k * 50) /\ i + 50 < 100)
  /\ ~ In (100 - 50) (windowStarts 50 100).
Proof.
  pose proof (window_scan_bounds (N := Exact.exact) 50 100 ltac:(lia)) as H.
  split; [exact (proj1 H) | exact (proj1 (proj2 (proj2 H)))].
Defined.

(** ** A missing channel, an empty dataset *)

(** C4, as the code has it.  Without a dataset, without a channel C3, or
    with a channel C3 of at most 50 samples (none in particular), the
    detector returns the empty event list; it raises no error and draws no
    random value. *)
Theorem detection_without_channel_or_samples {N : JSNumber}
    (data : option (dataset num)) (tp : tape) (n : nat) :
  data = None \/
  (exists d, data = Some d /\
     (channels d !! "C3" = None \/
      exists channelData,
        channels d !! "C3" = Some channelData /\ length channelData <= 50)) ->
  runSleepEventDetection data tp n = (Normal [], n).
Proof.
  intros [->|(d & -> & [HC|(channelData & HC & Hlen)])];
    unfold runSleepEventDetection, detectEvents; try reflexivity;
    rewrite HC; [reflexivity|].
  rewrite (windowStarts_short 50 _ Hlen). reflexivity.
Qed.

Lemma detection_without_channel_or_samples_witness :
  runSleepEventDetection (Some Examples.empty_recording) Examples.tape_high 0
    = (Normal [], 0).
Proof.
  apply detection_without_channel_or_samples. right.
  exists Examples.empty_recording. split; [reflexivity|]. right.
  exists []. split; [reflexivity | simpl; lia].
Defined.

(** C4 as stated fails: on a dataset that has no channel C3 the detector
    returns the empty list, not an UnknownChannel error. *)
Lemma detection_absent_channel_counterexample :
  channels Examples.fp1_recording !! "C3" = None
  /\ runSleepEventDetection (Some Examples.fp1_recording) Examples.tape_high 0
       = (Normal [], 0)
  /\ fst (runSleepEventDetection (Some Examples.fp1_recording)
            Examples.tape_high 0) <> Throw "UnknownChannel".
Proof.
  split; [reflexivity|]. split; [reflexivity|]. discriminate.
Qed.

(** ** The CSV parser *)

Section CsvFacts.
Context {N : JSNumber}.
Local Open Scope js_scope.

Lemma split_not_nil (sep : ascii) (s : string) : split sep s <> [].
Proof.
  destruct s as [|c s]; simpl; [discriminate|].
  destruct (Ascii.eqb c sep); [discriminate|].
  destruct (split sep s); discriminate.
Qed.

Lemma init_fold_lookup (hs : list string) (m : gmap string (list num))
    (name : string) :
  fold_left (fun ch h => <[trim h := []]> ch) hs m !! name
  = if includes (map trim hs) name then Some [] else m !! name.
Proof.
  revert m. induction hs as [|h hs IH]; intros m; simpl; [reflexivity|].
  rewrite IH. destruct (includes (map trim hs) name).
  - rewrite orb_true_r. reflexivity.
  - rewrite orb_false_r. destruct (String.eqb_spec name (trim h)) as [->|Hne].
    + apply lookup_insert_eq.
    + apply lookup_insert_ne. congruence.
Qed.

(** After the first loop the channels are the trimmed header fields but the
    first, each with an empty series. *)
Lemma init_channels_lookup (headers : list string) (name : string) :
  init_channels headers !! name
  = if includes (map trim (tail headers)) name then Some [] else None.
Proof. unfold init_channels. rewrite init_fold_lookup. reflexivity. Qed.

Lemma push_fold_lookup (headers values : list string) (js : list nat)
    (ch : gmap string (list num)) (name : string) :
  fold_left
    (fun ch j =>
       push_channel (trim (nth j headers ""))
         (num_or (parseFloat (nth j values "")) (lit 0)) ch) js ch !! name
  = (fun arr =>
       arr ++ flat_map
                (fun j =>
                   if String.eqb (trim (nth j headers "")) name
                   then [num_or (parseFloat (nth j values "")) (lit 0)]
                   else []) js)
    <$> (ch !! name).
Proof.
  revert ch. induction js as [|j js IH]; intros ch; simpl.
  - destruct (ch !! name); simpl; [rewrite app_nil_r|]; reflexivity.
  - rewrite IH. unfold push_channel.
    destruct (String.eqb_spec (trim (nth j headers "")) name) as [->|Hne].
    + rewrite lookup_alter_eq. destruct (ch !! name); simpl; [|reflexivity].
      rewrite <- app_assoc. reflexivity.
    + rewrite lookup_alter_ne by exact Hne. reflexivity.
Qed.

Lemma push_row_lookup (headers lines : list string) (i : nat)
    (ch : gmap string (list num)) (name : string) :
  push_row headers (row_values lines i) ch !! name
  = (fun arr => arr ++ row_cells headers lines name i) <$> (ch !! name).
Proof. unfold push_row, row_cells. apply push_fold_lookup. Qed.

(** A line with at least two fields adds a time and its cells; a line with
    a single field adds nothing. *)
Lemma parse_row_keep (headers lines : list string) (i : nat)
    (acc : list num * gmap string (list num)) :
  2 <= length (row_values lines i) ->
  parse_row headers lines i acc
  = (fst acc ++ [row_time i], push_row headers (row_values lines i) (snd acc)).
Proof.
  intros Hk. unfold parse_row. fold (row_values lines i).
  destruct (Nat.leb_spec 2 (length (row_values lines i))); [reflexivity | lia].
Qed.

Lemma parse_row_skip (headers lines : list string) (i : nat)
    (acc : list num * gmap string (list num)) :
  length (row_values lines i) < 2 ->
  parse_row headers lines i acc = acc.
Proof.
  intros Hk. unfold parse_row. fold (row_values lines i).
  destruct (Nat.leb_spec 2 (length (row_values lines i))); [lia | reflexivity].
Qed.

(** The row loop: the kept lines give the time array, and each channel its
    cells, in the order of the lines. *)
Lemma parse_rows_fold (headers lines : list string) (rows : list nat)
    (acc : list num * gmap string (list num)) :
  fst (fold_left (fun acc i => parse_row headers lines i acc) rows acc)
  = fst acc
    ++ map row_time
         (filter (fun i => 2 <= length (row_values lines i)) rows)
  /\ forall name,
       snd (fold_left (fun acc i => parse_row headers lines i acc) rows acc)
         !! name
       = (fun arr =>
            arr ++ flat_map (row_cells headers lines name)
                     (filter (fun i => 2 <= length (row_values lines i)) rows))
         <$> (snd acc !! name).
Proof.
  revert acc. induction rows as [|i rows IH]; intros acc; simpl.
  - split; [rewrite app_nil_r; reflexivity|].
    intros name. destruct (snd acc !! name); simpl; [rewrite app_nil_r|];
      reflexivity.
  - destruct (IH (parse_row headers lines i acc)) as [IHt IHc].
    rewrite IHt. rewrite filter_cons.
    destruct (decide (2 <= length (row_values lines i))) as [Hd|Hd].
    + rewrite parse_row_keep in * by exact Hd. simpl.
      split; [rewrite <- app_assoc; reflexivity|].
      intros name. rewrite IHc. simpl. rewrite push_row_lookup.
      destruct (snd acc !! name); simpl; [|reflexivity].
      rewrite <- app_assoc. reflexivity.
    + rewrite parse_row_skip in * by lia.
      split; [reflexivity|]. intros name. apply IHc.
Qed.

Lemma header_column_included (headers : list string) (j : nat) :
  1 <= j < length headers ->
  includes (map trim (tail headers)) (trim (nth j headers "")) = true.
Proof.
  intros Hj. destruct headers as [|h hs]; simpl in *; [lia|].
  destruct j as [|j]; [lia|].
  unfold includes. apply existsb_exists.
  exists (trim (nth j hs "")). split.
  - apply in_map, nth_In. lia.
  - apply String.eqb_refl.
Qed.

(** Every column the inner loop pushes on is a channel of the map, at any
    point of the row loop: [data.channels[channelName]] is never
    [undefined] there. *)
Lemma push_on_header_channel (headers lines : list string) (rows : list nat)
    (j : nat) :
  1 <= j < length headers ->
  is_Some
    (snd (fold_left (fun acc i => parse_row headers lines i acc) rows
            ([], init_channels headers))
       !! trim (nth j headers "")).
Proof.
  intros Hj. rewrite (proj2 (parse_rows_fold _ _ _ _)). simpl.
  rewrite init_channels_lookup, header_column_included by exact Hj.
  simpl. eexists. reflexivity.
Qed.

Lemma parseCSVData_time (csvText : string) :
  time (parseCSVData csvText) = map row_time (kept_rows (csv_lines csvText)).
Proof.
  unfold parseCSVData, kept_rows, csv_lines. simpl.
  rewrite (proj1 (parse_rows_fold _ _ _ _)). reflexivity.
Qed.

Lemma parseCSVData_samples (csvText : string) :
  samples (parseCSVData csvText)
  = Some (length (kept_rows (csv_lines csvText))).
Proof.
  pose proof (parseCSVData_time csvText) as Ht.
  unfold parseCSVData in *. simpl in *. rewrite Ht, length_map. reflexivity.
Qed.

Lemma parseCSVData_channel (csvText name : string) :
  channels (parseCSVData csvText) !! name
  = if includes (map trim (tail (csv_headers csvText))) name
    then Some (flat_map
                 (row_cells (csv_headers csvText) (csv_lines csvText) name)
                 (kept_rows (csv_lines csvText)))
    else None.
Proof.
  unfold parseCSVData, kept_rows, csv_headers, csv_lines. simpl.
  rewrite (proj2 (parse_rows_fold _ _ _ _)). simpl.
  rewrite init_channels_lookup.
  destruct (includes _ name); reflexivity.
Qed.

Lemma kept_rows_In (lines : list string) (i : nat) :
  In i (kept_rows lines) <->
  (1 <= i < length lines /\ i < 5000) /\ 2 <= length (row_values lines i).
Proof.
  unfold kept_rows, row_indices. rewrite <- list_elem_of_In.
  rewrite list_elem_of_filter, list_elem_of_In, in_seq. lia.
Qed.

Lemma row_cells_nil (headers lines : list string) (name : string) (i : nat) :
  (forall j, 1 <= j < length (row_values lines i) -> j < length headers ->
             trim (nth j headers "") <> name) ->
  row_cells headers lines name i = [].
Proof.
  intros Hno. unfold row_cells.
  assert (Hall : forall j,
             In j (seq 1 (Nat.min (length (row_values lines i))
                            (length headers) - 1)) ->
             trim (nth j headers "") <> name).
  { intros j Hj. apply in_seq in Hj. apply Hno; lia. }
  induction (seq 1 (Nat.min (length (row_values lines i)) (length headers) - 1))
    as [|j js IH]; simpl; [reflexivity|].
  destruct (String.eqb_spec (trim (nth j headers "")) name) as [Heq|Hne].
  - exfalso. exact (Hall j (or_introl eq_refl) Heq).
  - simpl. apply IH. intros j' Hj'. apply Hall. right. exact Hj'.
Qed.

End CsvFacts.

(** ** Inputs without data lines *)

(** C5, as the code has it.  The parser raises no error.  When no line
    follows the header line (the empty text included) it returns a dataset
    whose time array is empty, whose [samples] is 0 and whose channels, one
    per header field after the first, are all empty. *)
Theorem parse_without_data_lines {N : JSNumber} (csvText : string) :
  tail (csv_lines csvText) = [] ->
  time (parseCSVData csvText) = []
  /\ samples (parseCSVData csvText) = Some 0
  /\ (forall name,
        channels (parseCSVData csvText) !! name
        = if includes (map trim (tail (csv_headers csvText))) name
          then Some [] else None).
Proof.
  intros Hno.
  assert (Hk : kept_rows (csv_lines csvText) = []).
  { unfold kept_rows, row_indices.
    destruct (csv_lines csvText) as [|l ls]; [reflexivity|].
    simpl in Hno. subst ls. reflexivity. }
  split; [rewrite parseCSVData_time, Hk; reflexivity|].
  split; [rewrite parseCSVData_samples, Hk; reflexivity|].
  intros name. rewrite parseCSVData_channel, Hk. reflexivity.
Qed.

Lemma parse_without_data_lines_witness :
  time (parseCSVData (N := Exact.exact) Examples.csv_header_only) = []
  /\ samples (parseCSVData (N := Exact.exact) Examples.csv_header_only) = Some 0.
Proof.
  pose proof (parse_without_data_lines (N := Exact.exact)
                Examples.csv_header_only eq_refl) as H.
  split; [exact (proj1 H) | exact (proj1 (proj2 H))].
Defined.

(** C5 as stated fails: the empty text has no data line, and the parser
    returns the empty dataset for it instead of an EmptyDataset error. *)
Lemma parse_empty_text_counterexample :
  tail (csv_lines "") = []
  /\ parseCSVData (N := Exact.exact) ""
     = {| time := []; channels := ∅; sleepStages := None; events := None;
          samples := Some 0 |}.
Proof. split; reflexivity. Qed.

(** ** Lines shorter than the header *)

(** C6, as the code has it.  A line is kept when it has at least two fields,
    whatever the number of header fields.  The time array has one entry per
    kept line and [samples] counts them.  The series of a channel is made of
    the cells of the kept lines in the columns of that name, and a line has
    a cell only in the columns it has a field for: it is not padded.  So a
    line with a single field adds nothing, and a line with at least two
    fields but fewer than the header adds a time and the cells it has. *)
Theorem csv_lines_kept_and_unpadded {N : JSNumber} (csvText name : string) :
  time (parseCSVData csvText) = map row_time (kept_rows (csv_lines csvText))
  /\ samples (parseCSVData csvText)
     = Some (length (kept_rows (csv_lines csvText)))
  /\ channels (parseCSVData csvText) !! name
     = (if includes (map trim (tail (csv_headers csvText))) name
        then Some (flat_map
                     (row_cells (csv_headers csvText) (csv_lines csvText) name)
                     (kept_rows (csv_lines csvText)))
        else None)
  /\ (forall i,
        In i (kept_rows (csv_lines csvText)) <->
        (1 <= i < length (csv_lines csvText) /\ i < 5000)
        /\ 2 <= length (row_values (csv_lines csvText) i))
  /\ (forall i,
        (forall j,
           1 <= j < length (row_values (csv_lines csvText) i) ->
           j < length (csv_headers csvText) ->
           trim (nth j (csv_headers csvText) "") <> name) ->
        row_cells (csv_headers csvText) (csv_lines csvText) name i = []).
Proof.
  split; [apply parseCSVData_time|].
  split; [apply parseCSVData_samples|].
  split; [apply parseCSVData_channel|].
  split; [intros i; apply kept_rows_In|].
  intros i. apply row_cells_nil.
Qed.

(** C6 as stated fails: under the header [t,a,b] the line [1,2] has two
    fields for three columns, and it is not skipped: it gives the time 0.004
    and the value 2 of channel [a], and nothing to channel [b]. *)
Lemma short_row_counterexample :
  csv_headers Examples.csv_short_row = ["t"; "a"; "b"]
  /\ row_values (csv_lines Examples.csv_short_row) 1 = ["1"; "2"]
  /\ parseCSVData (N := Exact.exact) Examples.csv_short_row
     = {| time := [Exact.fin 0.004];
          channels := <["a" := [Exact.fin 2]]> (<["b" := []]> ∅);
          sleepStages := None;
          events := None;
          samples := Some 1 |}.
Proof. split; [reflexivity|]. split; [reflexivity|]. vm_compute. reflexivity. Qed.

(** ** Labels outside the enumerations *)

Section SynthesizerFacts.
Context {N : JSNumber}.
Local Open Scope js_scope.

Lemma not_stage_eqb (stage : string) :
  ~ isStage stage ->
  String.eqb stage "Wake" = false /\ String.eqb stage "N1" = false /\
  String.eqb stage "N2" = false /\ String.eqb stage "N3" = false /\
  String.eqb stage "REM" = false.
Proof.
  intros Hno. unfold isStage, stageLabels in Hno. simpl in Hno.
  repeat split; apply String.eqb_neq; intros ->; apply Hno; tauto.
Qed.

Lemma generateStageSpecificSignal_completes (t : num) (stage regionType : string) :
  completes_normally (generateStageSpecificSignal t stage regionType).
Proof.
  unfold generateStageSpecificSignal.
  repeat first
    [ apply completes_bind; [|intros ?]
    | apply completes_if
    | apply completes_ret
    | apply completes_random ].
Qed.

End SynthesizerFacts.

(** C7, as the code has it.  The sample function never fails.  For a stage
    label outside the enumeration no sinusoid is added and no random value
    is drawn: the result is 0 (multiplied by 1.2 when the region is frontal).
    A region label other than frontal and occipital leaves the signal as it
    is, like the region central. *)
Theorem synthesizer_unknown_labels {N : JSNumber}
    (t : num) (stage regionType : string) (tp : tape) (n : nat) :
  (~ isStage stage ->
   generateStageSpecificSignal t stage regionType tp n
   = (Normal (if String.eqb regionType "frontal"
              then mul (lit 0) (lit 1.2) else lit 0), n))
  /\ (regionType <> "frontal" -> regionType <> "occipital" ->
      generateStageSpecificSignal t stage regionType tp n
      = generateStageSpecificSignal t stage "central" tp n)
  /\ (exists v n',
        generateStageSpecificSignal t stage regionType tp n = (Normal v, n')).
Proof.
  split; [|split].
  - intros Hno. apply not_stage_eqb in Hno as (H1 & H2 & H3 & H4 & H5).
    unfold generateStageSpecificSignal. rewrite H1, H2, H3, H4, H5.
    unfold bind, ret.
    destruct (String.eqb regionType "frontal"); [reflexivity|].
    destruct (String.eqb regionType "occipital"); reflexivity.
  - intros Hf Ho. apply String.eqb_neq in Hf, Ho.
    unfold generateStageSpecificSignal, bind. rewrite Hf, Ho. reflexivity.
  - apply generateStageSpecificSignal_completes.
Qed.

(** C7 as stated fails: with a stage and a region that are not in the
    enumerations the sample function returns 0, not an InvalidLabel error. *)
Lemma synthesizer_unknown_label_counterexample :
  (~ isStage "Drowsy" /\ ~ In "cerebellar" ["frontal"; "temporal"; "parietal";
                                             "occipital"; "central"])
  /\ generateStageSpecificSignal (N := Exact.exact) (Exact.fin 1) "Drowsy"
       "cerebellar" Examples.tape_high 0
     = (Normal (Exact.fin 0), 0)
  /\ fst (generateStageSpecificSignal (N := Exact.exact) (Exact.fin 1) "Drowsy"
            "cerebellar" Examples.tape_high 0)
     <> Throw "InvalidLabel".
Proof.
  split; [|split].
  - split; unfold isStage; simpl; intros H;
      repeat (destruct H as [H|H]; [discriminate H|]); exact H.
  - reflexivity.
  - discriminate.
Qed.

(** ** The stage timeline *)

Section TimelineFacts.
Context {N : JSNumber}.

Lemma at_index_In {A} (arr : list A) (k : num) (x : A) :
  at_index arr k = Some x -> In x arr.
Proof.
  unfold at_index. destruct (array_index k) as [i|]; [|discriminate].
  intros H. apply list_elem_of_In. eapply list_elem_of_lookup_2. exact H.
Qed.

Lemma N2_isStage : isStage "N2".
Proof. unfold isStage, stageLabels. simpl. tauto. Qed.

(** An element of the pattern, or the fallback when the index is out of
    range. *)
Lemma timelineStage_cases (pattern : list string) (cycles samples i : nat) :
  timelineStage pattern cycles samples i = "N2"
  \/ In (timelineStage pattern cycles samples i) pattern.
Proof.
  unfold timelineStage, string_or.
  match goal with |- context [at_index pattern ?k] =>
    destruct (at_index pattern k) as [s|] eqn:Hat end; [|left; reflexivity].
  apply at_index_In in Hat.
  destruct s; [left; reflexivity | right; exact Hat].
Qed.

Lemma stageTimeline_length (pattern : list string) (cycles samples : nat) :
  length (stageTimeline pattern cycles samples) = samples.
Proof. unfold stageTimeline. rewrite length_map, length_seq. reflexivity. Qed.

Lemma stageTimeline_labels (pattern : list string) (cycles samples : nat) :
  Forall isStage pattern ->
  Forall isStage (stageTimeline pattern cycles samples).
Proof.
  intros Hp. unfold stageTimeline. apply Forall_forall. intros s Hs.
  apply list_elem_of_In, in_map_iff in Hs as (i & <- & _).
  destruct (timelineStage_cases pattern cycles samples i) as [->|Hin].
  - apply N2_isStage.
  - rewrite Forall_forall in Hp. apply Hp, list_elem_of_In, Hin.
Qed.

Lemma cyclePattern_labels : Forall isStage cyclePattern.
Proof.
  unfold cyclePattern, isStage, stageLabels.
  repeat (constructor; [simpl; tauto|]). constructor.
Qed.

End TimelineFacts.

(** C3.  For every number of samples, every number of cycles and every
    pattern made of stage labels (empty or not), the loop of the timeline
    generator yields exactly [samples] elements and each of them is a stage
    label: an element of the pattern, or the fallback N2.  The method itself,
    which runs the loop for the pattern Wake, N1, N2, N3, N2, REM and 4
    cycles, pushes [samples] stage labels on an empty array. *)
Theorem timeline_length_and_labels {N : JSNumber}
    (pattern : list string) (cycles samples : nat) :
  Forall isStage pattern ->
  length (stageTimeline pattern cycles samples) = samples
  /\ Forall isStage (stageTimeline pattern cycles samples)
  /\ length (generateSleepStageTimeline samples []) = samples
  /\ Forall isStage (generateSleepStageTimeline samples []).
Proof.
  intros Hp. unfold generateSleepStageTimeline. simpl.
  repeat split.
  - apply stageTimeline_length.
  - apply stageTimeline_labels. exact Hp.
  - apply stageTimeline_length.
  - apply stageTimeline_labels. apply cyclePattern_labels.
Qed.

Lemma timeline_length_and_labels_witness :
  length (stageTimeline (N := Exact.exact) channelStagePattern 8 80) = 80
  /\ Forall isStage (stageTimeline (N := Exact.exact) channelStagePattern 8 80).
Proof.
  assert (Hp : Forall isStage channelStagePattern).
  { unfold channelStagePattern, isStage, stageLabels.
    repeat (constructor; [simpl; tauto|]). constructor. }
  pose proof (timeline_length_and_labels (N := Exact.exact)
                channelStagePattern 8 80 Hp) as H.
  split; [exact (proj1 H) | exact (proj1 (proj2 H))].
Defined.

(** ** Scenario A *)

(** The method [generateSleepStageTimeline] itself uses six labels and four
    cycles: for 80 samples its last stage is REM.  Scenario A is about the
    eight labels and the eight segments of [generateRealisticChannelData]. *)
Remark method_timeline_80 :
  generateSleepStageTimeline (N := Exact.exact) 80 [] !! 79 = Some "REM".
Proof. vm_compute. reflexivity. Qed.

(** C8.  With 80 samples, the pattern Wake, N1, N2, N3, N2, REM, N2, N3 and
    8 cycles, the timeline loop gives Wake at index 0 and N3 at index 79;
    the index formula [floor(((79 % (80/8)) / (80/8)) * 8)] is 7, and the
    pattern has N3 at 7.  The stage the channel generator computes for 80
    samples, with the same pattern, is also Wake at 0 and N3 at 79. *)
Theorem scenario_A_stages :
  stageTimeline (N := Exact.exact) channelStagePattern 8 80 !! 0 = Some "Wake"
  /\ stageTimeline (N := Exact.exact) channelStagePattern 8 80 !! 79
     = Some "N3"
  /\ Math_floor (JSNumber := Exact.exact)
       (mul (div (rem (lit 79) (div (lit 80) (lit 8))) (div (lit 80) (lit 8)))
          (lit 8))
     = lit 7
  /\ channelStagePattern !! 7 = Some "N3"
  /\ channelStage (N := Exact.exact) 80 0 = "Wake"
  /\ channelStage (N := Exact.exact) 80 79 = "N3".
Proof. repeat split; vm_compute; reflexivity. Qed.

(** ** Dependence on the random generator *)

Section RandomFacts.
Context {N : JSNumber}.

Lemma generateStageSpecificSignal_local (t : num) (stage regionType : string) :
  draw_local (generateStageSpecificSignal t stage regionType).
Proof. unfold generateStageSpecificSignal. local_steps. Qed.

Lemma generateRealisticChannelData_local (samples : nat) (channel : string) :
  draw_local (generateRealisticChannelData samples channel).
Proof.
  unfold generateRealisticChannelData, channelSample.
  pose proof generateStageSpecificSignal_local. local_steps; auto.
Qed.

Lemma scanWindow_local (d : dataset num) (channelData : list num)
    (windowSize i : nat) (events : list (event num)) :
  draw_local (scanWindow d channelData windowSize i events).
Proof.
  unfold scanWindow, detectSpindle, detectKComplex, detectREMBurst.
  destruct (sleepStages d); local_steps.
Qed.

Lemma detectEvents_local (windowSize : nat) (data : option (dataset num)) :
  draw_local (detectEvents windowSize data).
Proof.
  unfold detectEvents. destruct data as [d|]; [|apply local_ret].
  destruct (channels d !! "C3"); [|apply local_ret].
  apply local_foldM. intros i events. apply scanWindow_local.
Qed.

Lemma generateSleepEvents_local (samples : nat) (times : list num)
    (stages : list string) :
  draw_local (generateSleepEvents samples times stages).
Proof. unfold generateSleepEvents, generateSleepEvents_step. local_steps. Qed.

Lemma generateDataset_local (samples : nat) :
  draw_local (generateDataset samples).
Proof.
  unfold generateDataset.
  pose proof generateRealisticChannelData_local.
  pose proof generateSleepEvents_local. local_steps; auto.
Qed.

End RandomFacts.

(** C2, as the code has it.  The random source is the ambient [Math.random]
    and the methods take no seed; what a run returns is fixed by its
    arguments together with the values [Math.random] yields during the run.
    Two runs of the channel generator, of the detector or of the dataset
    builder on the same arguments, from the same position and on tapes that
    agree on the positions the first run reads, end with the same completion
    at the same position. *)
Theorem outputs_fixed_by_random_draws {N : JSNumber}
    (samples : nat) (channel : string) (data : option (dataset num)) :
  (forall tp1 tp2 n r n',
     generateRealisticChannelData samples channel tp1 n = (r, n') ->
     agree tp1 tp2 n n' ->
     generateRealisticChannelData samples channel tp2 n = (r, n'))
  /\ (forall tp1 tp2 n r n',
        runSleepEventDetection data tp1 n = (r, n') ->
        agree tp1 tp2 n n' ->
        runSleepEventDetection data tp2 n = (r, n'))
  /\ (forall tp1 tp2 n r n',
        generateDataset samples tp1 n = (r, n') ->
        agree tp1 tp2 n n' ->
        generateDataset samples tp2 n = (r, n')).
Proof.
  split; [|split]; intros tp1 tp2 n r n' Hrun Hag.
  - exact (proj2 (generateRealisticChannelData_local _ _ _ tp2 _ _ _ Hrun) Hag).
  - exact (proj2 (detectEvents_local _ _ _ tp2 _ _ _ Hrun) Hag).
  - exact (proj2 (generateDataset_local _ _ tp2 _ _ _ Hrun) Hag).
Qed.

Lemma outputs_fixed_by_random_draws_witness :
  agree Examples.tape_high Examples.tape_six_high 0 6
  /\ runSleepEventDetection (Some Examples.n2_recording)
       Examples.tape_six_high 0
     = (Normal [Examples.spindle_at_0; Examples.kcomplex_at_0], 6).
Proof.
  assert (Hag : agree Examples.tape_high Examples.tape_six_high 0 6).
  { intros k Hk. unfold Examples.tape_high, Examples.tape_six_high.
    destruct (Nat.ltb_spec k 6); [reflexivity | lia]. }
  assert (Hrun : runSleepEventDetection (Some Examples.n2_recording)
                   Examples.tape_high 0
                 = (Normal [Examples.spindle_at_0; Examples.kcomplex_at_0], 6))
    by (vm_compute; reflexivity).
  split; [exact Hag|].
  exact (proj1 (proj2 (outputs_fixed_by_random_draws (N := Exact.exact) 0 ""
                         (Some Examples.n2_recording)))
           _ _ _ _ _ Hrun Hag).
Defined.

(** C2 as stated fails: the methods read the ambient generator, and two
    runs on the same arguments differ when the generator yields other
    values.  On the same dataset the detector returns two events when every
    draw is 0.875 and none when every draw is 0.125; for one sample of
    channel F3 the channel generator returns 1.875 in the first case and
    -1.875 in the second. *)
Lemma ambient_random_counterexample :
  runSleepEventDetection (Some Examples.n2_recording) Examples.tape_high 0
    = (Normal [Examples.spindle_at_0; Examples.kcomplex_at_0], 6)
  /\ runSleepEventDetection (Some Examples.n2_recording) Examples.tape_low 0
     = (Normal [], 2)
  /\ generateRealisticChannelData 1 "F3" Examples.tape_high 0
     = (Normal [Exact.fin 1.875], 1)
  /\ generateRealisticChannelData 1 "F3" Examples.tape_low 0
     = (Normal [Exact.fin (-1.875)], 1).
Proof. repeat split; vm_compute; reflexivity. Qed.

(** ** The time arrays *)

Section TimeFacts.
Context {N : JSNumber}.
Local Open Scope js_scope.

Lemma timeArray_lookup (samples k : nat) :
  k < samples -> timeArray samples !! k = Some (of_nat k / lit 10).
Proof.
  intros Hk. unfold timeArray. change map with (@fmap list _) at 1.
  rewrite list_lookup_fmap.
  rewrite (proj2 (lookup_seq 0 samples k k)) by lia. reflexivity.
Qed.

Lemma timeArray_length (samples : nat) : length (timeArray samples) = samples.
Proof. unfold timeArray. rewrite length_map, length_seq. reflexivity. Qed.

Lemma timeArray_increasing (samples : nat) :
  grid_monotone -> (Z.of_nat samples <= 2 ^ 32)%Z ->
  increasing (timeArray samples).
Proof.
  intros [Hdiv _] Hmax j k x y Hjk Hj Hk.
  assert (k < samples).
  { apply lookup_lt_Some in Hk. rewrite timeArray_length in Hk. exact Hk. }
  rewrite timeArray_lookup in Hj, Hk by lia.
  injection Hj as <-. injection Hk as <-. apply Hdiv; lia.
Qed.

Lemma generateSleepEvents_completes (samples : nat) (times : list num)
    (stages : list string) :
  completes_normally (generateSleepEvents samples times stages).
Proof.
  unfold generateSleepEvents, generateSleepEvents_step.
  apply completes_foldM. intros i events _.
  repeat first
    [ apply completes_bind; [|intros ?]
    | apply completes_andM
    | apply completes_if
    | apply completes_ret
    | apply completes_random ].
Qed.

Lemma generateRealisticChannelData_completes (samples : nat) (channel : string) :
  completes_normally (generateRealisticChannelData samples channel).
Proof.
  unfold generateRealisticChannelData, channelSample.
  apply completes_mapM. intros i.
  apply completes_bind; [apply generateStageSpecificSignal_completes|].
  intros signal. apply completes_bind; [apply completes_random|].
  intros r. apply completes_ret.
Qed.

(** The dataset builder returns, and the time array and the stage array of
    its dataset do not depend on the random values. *)
Lemma generateDataset_returns (samples : nat) (tp : tape) (n : nat) :
  exists d n',
    generateDataset samples tp n = (Normal d, n')
    /\ time d = timeArray samples
    /\ sleepStages d = Some (generateSleepStageTimeline samples []).
Proof.
  unfold generateDataset.
  match goal with |- context [bind ?c _] =>
    assert (Hc : completes_normally c) end.
  { apply completes_foldM. intros channel ch _.
    apply completes_bind; [apply generateRealisticChannelData_completes|].
    intros series. apply completes_ret. }
  destruct (Hc tp n) as (chans & n1 & Hchans).
  destruct (generateSleepEvents_completes samples (timeArray samples)
              (generateSleepStageTimeline samples []) tp n1)
    as (evs & n2 & Hevs).
  eexists. exists n2. unfold bind at 1. rewrite Hchans.
  unfold bind. rewrite Hevs. unfold ret. simpl.
  split; [reflexivity|]. split; reflexivity.
Qed.

(** The kept line numbers come in increasing order, between 1 and 4999. *)
Lemma filter_seq_increasing (P : nat -> Prop) `{forall i, Decision (P i)}
    (start len j k a b : nat) :
  j < k ->
  filter P (seq start len) !! j = Some a ->
  filter P (seq start len) !! k = Some b ->
  start <= a < b /\ b < start + len.
Proof.
  revert start j k. induction len as [|len IH]; intros start j k Hjk Hj Hk.
  - simpl in Hj. rewrite filter_nil in Hj. discriminate.
  - simpl in Hj, Hk. rewrite filter_cons in Hj, Hk.
    destruct (decide (P start)).
    + destruct k as [|k]; [lia|]. simpl in Hk.
      assert (Hb : S start <= b < S start + len).
      { apply list_elem_of_lookup_2, list_elem_of_filter in Hk as [_ Hk].
        apply list_elem_of_In, in_seq in Hk. lia. }
      destruct j as [|j].
      * simpl in Hj. injection Hj as <-. lia.
      * simpl in Hj. destruct (IH (S start) j k) as [? ?]; [lia|assumption..|lia].
    + destruct (IH (S start) j k) as [? ?]; [lia|assumption..|lia].
Qed.

Lemma kept_rows_increasing (lines : list string) (j k a b : nat) :
  j < k ->
  kept_rows lines !! j = Some a ->
  kept_rows lines !! k = Some b ->
  1 <= a < b /\ b < 5000.
Proof.
  intros Hjk Hj Hk. unfold kept_rows, row_indices in *.
  destruct (filter_seq_increasing _ _ _ _ _ _ _ Hjk Hj Hk) as [? ?]. lia.
Qed.

Lemma parsed_time_increasing (csvText : string) :
  grid_monotone -> increasing (time (parseCSVData csvText)).
Proof.
  intros [_ Hmul] j k x y Hjk Hj Hk. rewrite parseCSVData_time in Hj, Hk.
  change map with (@fmap list _) in Hj, Hk.
  rewrite list_lookup_fmap in Hj, Hk.
  destruct (kept_rows (csv_lines csvText) !! j) as [a|] eqn:Ha; [|discriminate].
  destruct (kept_rows (csv_lines csvText) !! k) as [b|] eqn:Hb; [|discriminate].
  simpl in Hj, Hk. injection Hj as <-. injection Hk as <-.
  destruct (kept_rows_increasing _ _ _ _ _ Hjk Ha Hb) as [? ?].
  apply Hmul; lia.
Qed.

End TimeFacts.

(** Exact numbers satisfy [grid_monotone]. *)

Lemma Qltb_true (p q : Q) : (p < q)%Q -> Exact.Qltb p q = true.
Proof.
  intros Hlt. unfold Exact.Qltb. destruct (Qle_bool q p) eqn:E; [|reflexivity].
  apply Qle_bool_iff in E. exfalso. exact (Qlt_not_le _ _ Hlt E).
Qed.

Lemma exact_grid_monotone : grid_monotone (N := Exact.exact).
Proof.
  split.
  - intros a b Hab _. unfold of_nat. simpl. unfold Exact.xdiv, Exact.fin.
    change (Exact.Qis_zero (Qred 10)) with false. cbv iota.
    apply Qltb_true. rewrite !Qred_correct.
    apply Qmult_lt_compat_r; [reflexivity|].
    rewrite <- Zlt_Qlt. lia.
  - intros a b Hab _. unfold of_nat. simpl. unfold Exact.xmul, Exact.fin.
    apply Qltb_true. rewrite !Qred_correct.
    apply Qmult_lt_compat_r; [reflexivity|].
    rewrite <- Zlt_Qlt. lia.
Qed.

(** C9, as the code has it.  Under [grid_monotone] both time arrays increase
    strictly.  The dataset builder (for any number of samples that is an
    array length, the 36000 of [generateAdvancedEEGData] included) returns a
    dataset whose time array has entry [k / 10] at every index [k]: a fixed
    step on the grid of 10 samples per second.  The parser gives the time
    [i * 0.004] to the line number [i] of each kept line, and the kept line
    numbers increase between 1 and 4999: two consecutive times are one step
    of 0.004 apart only when no line between them was dropped. *)
Theorem time_axis_increasing {N : JSNumber} :
  grid_monotone ->
  (forall samples tp n,
     (Z.of_nat samples <= 2 ^ 32)%Z ->
     exists d n',
       generateDataset samples tp n = (Normal d, n')
       /\ length (time d) = samples
       /\ (forall k, k < samples ->
                     time d !! k = Some (div (of_nat k) (lit 10)))
       /\ increasing (time d))
  /\ (forall tp n,
        exists d n',
          generateAdvancedEEGData tp n = (Normal d, n')
          /\ length (time d) = 3600 * 10
          /\ increasing (time d))
  /\ (forall csvText,
        time (parseCSVData csvText)
        = map row_time (kept_rows (csv_lines csvText))
        /\ (forall j k a b,
              j < k ->
              kept_rows (csv_lines csvText) !! j = Some a ->
              kept_rows (csv_lines csvText) !! k = Some b ->
              1 <= a < b /\ b < 5000)
        /\ increasing (time (parseCSVData csvText))).
Proof.
  intros Hgrid.
  assert (Hgen : forall samples tp n,
            (Z.of_nat samples <= 2 ^ 32)%Z ->
            exists d n',
              generateDataset samples tp n = (Normal d, n')
              /\ length (time d) = samples
              /\ (forall k, k < samples ->
                            time d !! k = Some (div (of_nat k) (lit 10)))
              /\ increasing (time d)).
  { intros samples tp n Hmax.
    destruct (generateDataset_returns samples tp n) as (d & n' & Hrun & Ht & _).
    exists d, n'. rewrite Ht. split; [exact Hrun|].
    split; [apply timeArray_length|].
    split; [intros k Hk; apply timeArray_lookup; exact Hk|].
    apply timeArray_increasing; assumption. }
  split; [exact Hgen|]. split.
  - intros tp n. unfold generateAdvancedEEGData.
    destruct (Hgen (3600 * 10) tp n) as (d & n' & Hrun & Hlen & _ & Hinc);
      [lia|].
    exists d, n'. split; [exact Hrun|]. split; [exact Hlen | exact Hinc].
  - intros csvText. split; [apply parseCSVData_time|].
    split; [intros j k a b; apply kept_rows_increasing|].
    apply parsed_time_increasing. exact Hgrid.
Qed.

Lemma time_axis_increasing_witness :
  grid_monotone (N := Exact.exact)
  /\ increasing (time (parseCSVData (N := Exact.exact) Examples.csv_gap)).
Proof.
  split; [exact exact_grid_monotone|].
  exact (proj2 (proj2 (proj2 (proj2
           (time_axis_increasing (N := Exact.exact) exact_grid_monotone))
           Examples.csv_gap))).
Defined.

(** C9 as stated fails for the parser: when the second of three lines has a
    single field, the times are 0.004 and 0.012, and their difference is
    0.008, not the step 0.004. *)
Lemma time_step_counterexample :
  time (parseCSVData (N := Exact.exact) Examples.csv_gap)
    = [Exact.fin 0.004; Exact.fin 0.012]
  /\ sub (JSNumber := Exact.exact) (Exact.fin 0.012) (Exact.fin 0.004)
     = Exact.fin 0.008
  /\ Exact.fin 0.008 <> Exact.fin 0.004.
Proof.
  split; [vm_compute; reflexivity|]. split; [vm_compute; reflexivity|].
  vm_compute. discriminate.
Qed.

(** ** The concrete inputs in binary64

    The arithmetic of the JavaScript engine on the numbers of the concrete
    inputs above; a decimal literal stands for the nearest double. *)

Module Binary64.
Import PrimFloat.
#[local] Set Warnings "-inexact-float".

(** Scenario A: [79 % 10] is 9, and both [9 / 10 * 8] and [79 / (80 / 8)]
    lie between 7 and 8, so [Math.floor] gives 7 as on exact numbers. *)
Remark scenario_A_binary64 :
  (leb 7 (9 / 10 * 8) && ltb (9 / 10 * 8) 8
   && leb 7 (79 / (80 / 8)) && ltb (79 / (80 / 8)) 8)%float
  = true.
Proof. vm_compute. reflexivity. Qed.

(** The times of lines 1 and 3 are more than one step apart. *)
Remark time_gap_binary64 :
  (ltb 0.004 (3 * 0.004 - 1 * 0.004))%float = true.
Proof. vm_compute. reflexivity. Qed.

(** One sample of channel F3 at [t = 0] (no sinusoid, region factor 1.2,
    channel factor 1.0) for the draws 0.875 and 0.125. *)
Remark channel_sample_binary64 :
  (eqb ((0 * 1.2 + (0.875 - 0.5) * 5) * 1.0) 1.875
   && eqb ((0 * 1.2 + (0.125 - 0.5) * 5) * 1.0) (-1.875))%float
  = true.
Proof. vm_compute. reflexivity. Qed.

End Binary64.

(** * Further properties *)

(** ** The detector on loaded data *)

(** X1.  [loadRealEEGData] installs a copy of the parsed dataset as
    [this.data]; that object has no [sleepStages].  When its channel C3 has
    more than 50 samples, the detector ends in a TypeError at the first
    window, whatever the samples and the random values are; with at most 50
    samples it returns the empty list. *)
Theorem detection_on_parsed_data {N : JSNumber}
    (csvText : string) (channelData : list num) (tp : tape) (n : nat) :
  channels (parseCSVData csvText) !! "C3" = Some channelData ->
  (50 < length channelData ->
   runSleepEventDetection (Some (parseCSVData csvText)) tp n
   = (Throw "TypeError", n))
  /\ (length channelData <= 50 ->
      runSleepEventDetection (Some (parseCSVData csvText)) tp n
      = (Normal [], n)).
Proof.
  intros HC. split; intros Hlen.
  - apply (detectEvents_without_stages 50 _ channelData); [reflexivity|exact HC|exact Hlen].
  - unfold runSleepEventDetection, detectEvents. rewrite HC.
    rewrite (windowStarts_short 50 _ Hlen). reflexivity.
Qed.

Lemma detection_on_parsed_data_witness :
  channels (parseCSVData (N := Exact.exact) (MoreExamples.csv_c3 51)) !! "C3"
    = Some (repeat (Exact.fin 2) 51)
  /\ runSleepEventDetection
       (Some (parseCSVData (N := Exact.exact) (MoreExamples.csv_c3 51)))
       Examples.tape_high 0
     = (Throw "TypeError", 0).
Proof.
  assert (HC : channels (parseCSVData (N := Exact.exact)
                           (MoreExamples.csv_c3 51)) !! "C3"
               = Some (repeat (Exact.fin 2) 51))
    by (vm_compute; reflexivity).
  split; [exact HC|].
  apply (proj1 (detection_on_parsed_data _ _ Examples.tape_high 0 HC)).
  rewrite repeat_length. lia.
Defined.

(** ** Order and number of the detected events *)

Section EventOrderFacts.
Context {N : JSNumber}.

(** The counter of a loop that stops at its [m]-th test. *)
Lemma counter_values_seq (step : nat) (bound : Z) (m i fuel : nat) :
  m <= fuel ->
  (forall k, k < m -> (Z.of_nat (i + k * step) < bound)%Z) ->
  ~ (Z.of_nat (i + m * step) < bound)%Z ->
  counter_values fuel i step bound = map (fun k => i + k * step) (seq 0 m).
Proof.
  revert i fuel. induction m as [|m IH]; intros i fuel Hfuel Hin Hout.
  - destruct fuel as [|fuel]; [reflexivity|]. simpl.
    destruct (Z.ltb_spec (Z.of_nat i) bound); [|reflexivity].
    exfalso. apply Hout. replace (i + 0 * step) with i by lia. assumption.
  - destruct fuel as [|fuel]; [lia|]. simpl.
    destruct (Z.ltb_spec (Z.of_nat i) bound) as [_|Hge].
    + f_equal; [lia|].
      rewrite <- seq_shift, map_map.
      rewrite (IH (i + step) fuel); [|lia| |].
      * apply map_ext. intros k. lia.
      * intros k Hk. specialize (Hin (S k)).
        replace (i + step + k * step) with (i + S k * step) by lia.
        apply Hin. lia.
      * replace (i + step + m * step) with (i + S m * step) by lia. exact Hout.
    + exfalso. specialize (Hin 0). replace (i + 0 * step) with i in Hin by lia.
      lia.
Qed.

(** The detector scans [(len - 1) / windowSize] windows, in increasing
    order. *)
Lemma windowStarts_seq (windowSize len : nat) :
  1 <= windowSize ->
  windowStarts windowSize len
  = map (fun k => k * windowSize) (seq 0 ((len - 1) / windowSize)).
Proof.
  intros HW. unfold windowStarts, for_counter.
  pose proof (Nat.div_mod_eq (len - 1) windowSize) as Hdm.
  pose proof (Nat.mod_upper_bound (len - 1) windowSize ltac:(lia)) as Hmod.
  rewrite (counter_values_seq windowSize _ ((len - 1) / windowSize) 0).
  - apply map_ext. intros k. lia.
  - nia.
  - intros k Hk. nia.
  - nia.
Qed.

Lemma foldM_parts {A B} (f : B -> list A -> JS (list A))
    (P : B -> list A -> Prop) (l : list B) :
  (forall x acc tp n acc' n',
      f x acc tp n = (Normal acc', n') ->
      exists new, acc' = acc ++ new /\ P x new) ->
  forall acc tp n acc' n',
    foldM f l acc tp n = (Normal acc', n') ->
    exists parts, acc' = acc ++ concat parts /\ Forall2 P l parts.
Proof.
  intros Hstep. induction l as [|x l IH]; intros acc tp n acc' n' H; simpl in H.
  - unfold ret in H. injection H as <- _. exists [].
    split; [simpl; rewrite app_nil_r; reflexivity | constructor].
  - apply bind_Normal in H as (acc1 & n1 & H1 & H).
    apply Hstep in H1 as (new & -> & HP).
    apply IH in H as (parts & -> & HF).
    exists (new :: parts). split; [simpl; rewrite app_assoc; reflexivity|].
    constructor; assumption.
Qed.

(** One window adds its events in the order spindle, K-complex, REM burst,
    and the stage test excludes a REM burst beside the other two. *)
Lemma scanWindow_shape (d : dataset num) (channelData : list num)
    (windowSize i : nat) (events : list (event num)) tp n evs' n' :
  scanWindow d channelData windowSize i events tp n = (Normal evs', n') ->
  exists new, evs' = events ++ new /\ window_part d i new.
Proof.
  unfold scanWindow. destruct (sleepStages d) as [stages|]; [|discriminate].
  intros H.
  apply bind_Normal in H as (b1 & n1 & Hb1 & H).
  apply bind_Normal in H as (ev1 & n2 & He1 & H).
  apply bind_Normal in H as (b2 & n3 & Hb2 & H).
  apply bind_Normal in H as (ev2 & n4 & He2 & H).
  apply bind_Normal in H as (b3 & n5 & Hb3 & H).
  assert (Hstage : b3 = true -> b1 = false /\ b2 = false).
  { intros ->. apply andM_true, stage_is_true in Hb3.
    split; [destruct b1 | destruct b2]; try reflexivity.
    - apply andM_true, stage_is_true in Hb1. congruence.
    - apply andM_true, stage_is_true in Hb2. congruence. }
  unfold window_part, window_shapes.
  destruct b1, b2, b3;
    try (destruct (Hstage eq_refl); discriminate);
    unfold bind, Math_random, ret in He1, He2, H;
    injection He1 as <- _; injection He2 as <- _; injection H as <- _;
    rewrite <- ?app_assoc;
    (eexists; split; [first [reflexivity | symmetry; apply app_nil_r]|]);
    simpl; (split; [tauto|]); intros e He;
    repeat (destruct He as [<-|He]; [reflexivity|]); destruct He.
Qed.

Lemma window_part_length (d : dataset num) (i : nat) (part : list (event num)) :
  window_part d i part -> length part <= 2.
Proof.
  intros [Hshape _]. rewrite <- (length_map ev_type).
  unfold window_shapes in Hshape. simpl in Hshape.
  repeat (destruct Hshape as [<-|Hshape]; [simpl; lia|]). destruct Hshape.
Qed.

Lemma concat_length_bound {A} (parts : list (list A)) (b : nat) :
  Forall (fun part => length part <= b) parts ->
  length (concat parts) <= b * length parts.
Proof.
  induction 1 as [|part parts Hp _ IH]; simpl; [lia|].
  rewrite length_app. lia.
Qed.

(** At most two events per scanned window. *)
Lemma detected_events_by_window_bound (windowSize : nat) (d : dataset num)
    (channelData : list num) tp n n' (evs : list (event num)) :
  1 <= windowSize ->
  channels d !! "C3" = Some channelData ->
  detectEvents windowSize (Some d) tp n = (Normal evs, n') ->
  length evs <= 2 * ((length channelData - 1) / windowSize).
Proof.
  intros HW HC Hrun.
  pose proof (windowStarts_seq windowSize (length channelData) HW) as Hseq.
  unfold detectEvents in Hrun. rewrite HC in Hrun.
  apply (foldM_parts _ (window_part d)) in Hrun as (parts & Hevs & HF);
    [|intros i acc tp0 m acc' m'; apply scanWindow_shape].
  simpl in Hevs. rewrite Hevs.
  assert (Hlen : length parts = (length channelData - 1) / windowSize).
  { apply Forall2_length in HF. rewrite <- HF, Hseq, length_map, length_seq.
    reflexivity. }
  rewrite <- Hlen. apply concat_length_bound.
  clear Hevs Hlen Hseq. induction HF as [|i part starts parts Hp _ IH];
    constructor; [eapply window_part_length; exact Hp | exact IH].
Qed.

End EventOrderFacts.

(** X2.  For a window size of at least one sample, the detector scans
    [(len - 1) / windowSize] windows, in increasing order of their start,
    where [len] is the length of channel C3.  The returned list is the
    concatenation, in that order, of what each window adds: nothing, a
    spindle, a K-complex, a spindle followed by a K-complex, or a REM burst,
    all with the time of the first sample of the window.  So there are at
    most two events per window and the events come in the order of the
    windows. *)
Theorem detected_events_by_window {N : JSNumber}
    (windowSize : nat) (d : dataset num) (channelData : list num)
    (tp : tape) (n n' : nat) (evs : list (event num)) :
  1 <= windowSize ->
  channels d !! "C3" = Some channelData ->
  detectEvents windowSize (Some d) tp n = (Normal evs, n') ->
  windowStarts windowSize (length channelData)
  = map (fun k => k * windowSize)
      (seq 0 ((length channelData - 1) / windowSize))
  /\ (exists parts,
        evs = concat parts
        /\ Forall2 (window_part d)
             (windowStarts windowSize (length channelData)) parts)
  /\ length evs <= 2 * ((length channelData - 1) / windowSize).
Proof.
  intros HW HC Hrun.
  pose proof (windowStarts_seq windowSize (length channelData) HW) as Hseq.
  unfold detectEvents in Hrun. rewrite HC in Hrun.
  apply (foldM_parts _ (window_part d)) in Hrun as (parts & Hevs & HF);
    [|intros i acc tp0 m acc' m'; apply scanWindow_shape].
  simpl in Hevs. split; [exact Hseq|]. split; [exists parts; split; assumption|].
  rewrite Hevs.
  assert (Hlen : length parts = (length channelData - 1) / windowSize).
  { apply Forall2_length in HF. rewrite <- HF, Hseq, length_map, length_seq.
    reflexivity. }
  rewrite <- Hlen. apply concat_length_bound.
  clear Hevs Hlen Hseq. induction HF as [|i part starts parts Hp _ IH];
    constructor; [eapply window_part_length; exact Hp | exact IH].
Qed.

Lemma detected_events_by_window_witness :
  length [Examples.spindle_at_0; Examples.kcomplex_at_0]
    <= 2 * ((length Examples.square_wave - 1) / 50)
  /\ windowStarts 50 (length Examples.square_wave)
     = map (fun k => k * 50) (seq 0 ((length Examples.square_wave - 1) / 50)).
Proof.
  assert (Hrun : detectEvents 50 (Some Examples.n2_recording)
                   Examples.tape_high 0
                 = (Normal [Examples.spindle_at_0; Examples.kcomplex_at_0], 6))
    by (vm_compute; reflexivity).
  assert (HC : channels Examples.n2_recording !! "C3"
               = Some Examples.square_wave) by reflexivity.
  pose proof (detected_events_by_window (N := Exact.exact) 50
                Examples.n2_recording Examples.square_wave Examples.tape_high
                0 6 _ ltac:(lia) HC Hrun) as H.
  split; [exact (proj2 (proj2 H)) | exact (proj1 H)].
Defined.

(** ** The channel generator: length and random draws *)

Section GeneratorFacts.
Context {N : JSNumber}.

(** The sample function draws one random value for stage N2 and none for
    any other label, valid or not. *)
Lemma generateStageSpecificSignal_draws (t : num) (stage regionType : string)
    (tp : tape) (n : nat) :
  exists v,
    generateStageSpecificSignal t stage regionType tp n
    = (Normal v, n + (if String.eqb stage "N2" then 1 else 0)).
Proof.
  unfold generateStageSpecificSignal, bind, ret, Math_random.
  destruct (String.eqb_spec stage "Wake") as [->|_]; simpl.
  { rewrite Nat.add_0_r.
    destruct (String.eqb regionType "frontal"); [eexists; reflexivity|].
    destruct (String.eqb regionType "occipital"); eexists; reflexivity. }
  destruct (String.eqb_spec stage "N1") as [->|_]; simpl.
  { rewrite Nat.add_0_r.
    destruct (String.eqb regionType "frontal"); [eexists; reflexivity|].
    destruct (String.eqb regionType "occipital"); eexists; reflexivity. }
  destruct (String.eqb_spec stage "N2") as [->|Hn2]; simpl.
  { rewrite Nat.add_1_r.
    destruct (lt (tp n) (lit 0.001));
      (destruct (String.eqb regionType "frontal"); [eexists; reflexivity|]);
      destruct (String.eqb regionType "occipital"); eexists; reflexivity. }
  rewrite Nat.add_0_r.
  destruct (String.eqb stage "N3"), (String.eqb stage "REM");
    (destruct (String.eqb regionType "frontal"); [eexists; reflexivity|]);
    destruct (String.eqb regionType "occipital"); eexists; reflexivity.
Qed.

Lemma channelSample_draws (samples : nat) (channel regionType : string)
    (i : nat) (tp : tape) (n : nat) :
  exists v,
    channelSample samples channel regionType i tp n
    = (Normal v,
       n + (if String.eqb (channelStage samples i) "N2" then 2 else 1)).
Proof.
  unfold channelSample.
  destruct (generateStageSpecificSignal_draws (div (of_nat i) (lit 10))
              (channelStage samples i) regionType tp n) as [v Hv].
  unfold bind at 1. rewrite Hv. unfold bind, Math_random, ret.
  eexists. f_equal. destruct (String.eqb (channelStage samples i) "N2"); lia.
Qed.

Lemma mapM_draws {A B} (f : A -> JS B) (cost : A -> nat) (l : list A) :
  (forall x tp n, exists y, f x tp n = (Normal y, n + cost x)) ->
  forall tp n,
    exists ys,
      mapM f l tp n = (Normal ys, n + list_sum (map cost l))
      /\ length ys = length l.
Proof.
  intros Hf. induction l as [|x l IH]; intros tp n; simpl.
  - exists []. unfold ret. rewrite Nat.add_0_r. split; reflexivity.
  - destruct (Hf x tp n) as [y Hy].
    destruct (IH tp (n + cost x)) as (ys & Hys & Hlen).
    exists (y :: ys). unfold bind at 1. rewrite Hy.
    unfold bind at 1. rewrite Hys. unfold ret.
    split; [f_equal; lia | simpl; rewrite Hlen; reflexivity].
Qed.

Lemma n2_cost_sum (samples : nat) (l : list nat) :
  list_sum
    (map (fun i => if String.eqb (channelStage samples i) "N2" then 2 else 1) l)
  = length l + length (filter (fun i => channelStage samples i = "N2") l).
Proof.
  induction l as [|i l IH]; simpl; [reflexivity|].
  rewrite filter_cons, IH.
  destruct (String.eqb_spec (channelStage samples i) "N2") as [Heq|Hne];
    destruct (decide (channelStage samples i = "N2")); try contradiction;
    simpl; lia.
Qed.

Lemma n2_count_le (samples : nat) : n2_count samples <= samples.
Proof.
  unfold n2_count.
  pose proof (length_filter (fun i => channelStage samples i = "N2")
                (seq 0 samples)) as H.
  rewrite length_seq in H. exact H.
Qed.

Lemma generateRealisticChannelData_spec (samples : nat) (channel : string)
    (tp : tape) (n : nat) :
  exists series,
    generateRealisticChannelData samples channel tp n
    = (Normal series, n + samples + n2_count samples)
    /\ length series = samples.
Proof.
  unfold generateRealisticChannelData.
  destruct (mapM_draws (channelSample samples channel (getChannelRegion channel))
              (fun i => if String.eqb (channelStage samples i) "N2"
                        then 2 else 1)
              (seq 0 samples)
              (channelSample_draws samples channel (getChannelRegion channel))
              tp n) as (ys & Hys & Hlen).
  exists ys. rewrite Hys, n2_cost_sum, length_seq.
  rewrite length_seq in Hlen. unfold n2_count.
  split; [f_equal; lia | exact Hlen].
Qed.

End GeneratorFacts.

(** X3.  For every number of samples and every channel name, the channel
    generator returns a series of exactly [samples] values and raises no
    error.  It draws one random value per sample, and a second one for each
    sample synthesized for stage N2: between [samples] and [2 * samples]
    draws in all, the same number for every channel. *)
Theorem channel_series_length_and_draws {N : JSNumber}
    (samples : nat) (channel : string) (tp : tape) (n : nat) :
  (exists series,
     generateRealisticChannelData samples channel tp n
     = (Normal series, n + samples + n2_count samples)
     /\ length series = samples)
  /\ n2_count samples <= samples.
Proof.
  split; [apply generateRealisticChannelData_spec | apply n2_count_le].
Qed.

(** ** The scheduled events *)

Section ScheduleFacts.
Context {N : JSNumber}.

(** [generateSleepEvents] looks at the samples 0, 100, 200, ... below
    [samples]. *)
Lemma schedule_positions (samples : nat) :
  for_counter 0 100 (Z.of_nat samples)
  = map (fun k => k * 100) (seq 0 ((samples + 99) / 100)).
Proof.
  unfold for_counter.
  rewrite (counter_values_seq 100 _ ((samples + 99) / 100) 0).
  - apply map_ext. intros k. lia.
  - pose proof (Nat.div_mod_eq (samples + 99) 100).
    pose proof (Nat.mod_upper_bound (samples + 99) 100). lia.
  - intros k Hk.
    pose proof (Nat.div_mod_eq (samples + 99) 100).
    pose proof (Nat.mod_upper_bound (samples + 99) 100). lia.
  - pose proof (Nat.div_mod_eq (samples + 99) 100).
    pose proof (Nat.mod_upper_bound (samples + 99) 100). lia.
Qed.

Lemma generateSleepEvents_step_shape (times : list num) (stages : list string)
    (i : nat) (events : list (event num)) tp n evs' n' :
  generateSleepEvents_step times stages i events tp n = (Normal evs', n') ->
  exists new, evs' = events ++ new /\ scheduled_part times stages i new.
Proof.
  unfold generateSleepEvents_step. intros H.
  apply bind_Normal in H as (b1 & n1 & Hb1 & H).
  apply bind_Normal in H as (ev1 & n2 & He1 & H).
  apply bind_Normal in H as (b2 & n3 & Hb2 & H).
  apply bind_Normal in H as (ev2 & n4 & He2 & H).
  apply bind_Normal in H as (b3 & n5 & Hb3 & H).
  assert (H1 : b1 = true -> stages !! i = Some "N2")
    by (intros ->; eapply stage_is_true, andM_true; exact Hb1).
  assert (H2 : b2 = true -> stages !! i = Some "N2")
    by (intros ->; eapply stage_is_true, andM_true; exact Hb2).
  assert (H3 : b3 = true -> stages !! i = Some "REM")
    by (intros ->; eapply stage_is_true, andM_true; exact Hb3).
  unfold scheduled_part, window_shapes, gated.
  destruct b1, b2, b3;
    try (specialize (H1 eq_refl)); try (specialize (H2 eq_refl));
    try (specialize (H3 eq_refl)); try congruence;
    unfold bind, Math_random, ret in He1, He2, H;
    injection He1 as <- _; injection He2 as <- _; injection H as <- _;
    rewrite <- ?app_assoc;
    (eexists; split; [first [reflexivity | symmetry; apply app_nil_r]|]);
    simpl; (split; [tauto|]); intros e He;
    repeat (destruct He as [<-|He]; [simpl; tauto|]); destruct He.
Qed.

Lemma scheduled_part_length (times : list num) (stages : list string)
    (i : nat) (part : list (event num)) :
  scheduled_part times stages i part -> length part <= 2.
Proof.
  intros [Hshape _]. rewrite <- (length_map ev_type).
  unfold window_shapes in Hshape. simpl in Hshape.
  repeat (destruct Hshape as [<-|Hshape]; [simpl; lia|]). destruct Hshape.
Qed.

Lemma generateSleepEvents_spec (samples : nat) (times : list num)
    (stages : list string) (tp : tape) (n : nat) :
  exists evs n' parts,
    generateSleepEvents samples times stages tp n = (Normal evs, n')
    /\ evs = concat parts
    /\ Forall2 (scheduled_part times stages)
         (map (fun k => k * 100) (seq 0 ((samples + 99) / 100))) parts.
Proof.
  destruct (generateSleepEvents_completes samples times stages tp n)
    as (evs & n' & Hrun).
  exists evs, n'. pose proof Hrun as Hrun'.
  unfold generateSleepEvents in Hrun'.
  apply (foldM_parts _ (scheduled_part times stages)) in Hrun'
    as (parts & Hevs & HF);
    [|intros i acc tp0 m acc' m'; apply generateSleepEvents_step_shape].
  rewrite schedule_positions in HF.
  exists parts. split; [exact Hrun|]. split; [exact Hevs | exact HF].
Qed.

End ScheduleFacts.

(** X4.  [generateSleepEvents] never fails.  It looks at the samples 0,
    100, 200, ... below [samples] and returns, in that order, what each of
    them adds: nothing, a spindle, a K-complex, a spindle followed by a
    K-complex, or a REM burst.  Each event has the time of its sample, is
    allowed by the stage of its sample (N2 for spindles and K-complexes,
    REM for REM bursts) and has no confidence.  There are at most two
    events per sample looked at. *)
Theorem scheduled_events_by_position {N : JSNumber}
    (samples : nat) (times : list num) (stages : list string)
    (tp : tape) (n : nat) :
  exists evs n' parts,
    generateSleepEvents samples times stages tp n = (Normal evs, n')
    /\ evs = concat parts
    /\ Forall2 (scheduled_part times stages)
         (map (fun k => k * 100) (seq 0 ((samples + 99) / 100))) parts
    /\ length evs <= 2 * ((samples + 99) / 100).
Proof.
  destruct (generateSleepEvents_spec samples times stages tp n)
    as (evs & n' & parts & Hrun & Hevs & HF).
  exists evs, n', parts. repeat split; try assumption.
  rewrite Hevs.
  assert (Hlen : length parts = (samples + 99) / 100).
  { apply Forall2_length in HF. rewrite <- HF, length_map, length_seq.
    reflexivity. }
  rewrite <- Hlen. apply concat_length_bound.
  clear Hevs Hlen Hrun.
  induction HF as [|i part starts parts Hp _ IH];
    constructor; [eapply scheduled_part_length; exact Hp | exact IH].
Qed.

(** ** The synthesized dataset *)

Section DatasetFacts.
Context {N : JSNumber}.

Lemma channel_fold_lookup (samples : nat) (l : list string)
    (ch0 ch : gmap string (list num)) tp n n' :
  foldM (fun channel (ch : gmap string (list num)) =>
           series <- generateRealisticChannelData samples channel ;;
           ret (<[channel := series]> ch)) l ch0 tp n = (Normal ch, n') ->
  forall c,
    (In c l -> exists series, ch !! c = Some series /\ length series = samples)
    /\ (~ In c l -> ch !! c = ch0 !! c).
Proof.
  revert ch0 tp n. induction l as [|x l IH]; intros ch0 tp n H c; simpl in H.
  - unfold ret in H. injection H as <- _. split; [intros []|reflexivity].
  - apply bind_Normal in H as (ch1 & n1 & H1 & H).
    apply bind_Normal in H1 as (series & n2 & Hs & Hret).
    unfold ret in Hret. injection Hret as <- _.
    destruct (generateRealisticChannelData_spec samples x tp n)
      as (series' & Hs' & Hlen).
    rewrite Hs in Hs'. injection Hs' as -> _.
    destruct (IH _ _ _ H c) as [IHin IHout].
    destruct (in_dec string_dec c l) as [Hc|Hc].
    + split; [intros _; apply IHin; exact Hc | simpl; tauto].
    + rewrite (IHout Hc). split.
      * intros [->|Hin]; [|contradiction].
        exists series'. rewrite lookup_insert_eq. split; [reflexivity|exact Hlen].
      * intros Hno. apply lookup_insert_ne. simpl in Hno. tauto.
Qed.

Lemma stageTimeline_lookup (pattern : list string) (cycles samples i : nat) :
  i < samples ->
  stageTimeline pattern cycles samples !! i
  = Some (timelineStage pattern cycles samples i).
Proof.
  intros Hi. unfold stageTimeline. change map with (@fmap list _) at 1.
  rewrite list_lookup_fmap, (proj2 (lookup_seq 0 samples i i)) by lia.
  reflexivity.
Qed.

(** What the dataset builder returns. *)
Lemma generateDataset_spec (samples : nat) (tp : tape) (n : nat) :
  exists d n',
    generateDataset samples tp n = (Normal d, n')
    /\ time d = timeArray samples
    /\ sleepStages d = Some (stageTimeline cyclePattern 4 samples)
    /\ (forall c, In c this_channels ->
          exists series, channels d !! c = Some series
                         /\ length series = samples)
    /\ (forall c, ~ In c this_channels -> channels d !! c = None)
    /\ (exists evs parts,
          events d = Some evs /\ evs = concat parts
          /\ Forall2 (scheduled_part (timeArray samples)
                        (stageTimeline cyclePattern 4 samples))
               (map (fun k => k * 100) (seq 0 ((samples + 99) / 100))) parts).
Proof.
  unfold generateDataset.
  match goal with |- context [bind ?c _] =>
    assert (Hc : completes_normally c) end.
  { apply completes_foldM. intros channel ch _.
    apply completes_bind; [apply generateRealisticChannelData_completes|].
    intros series. apply completes_ret. }
  destruct (Hc tp n) as (chans & n1 & Hchans).
  destruct (generateSleepEvents_spec samples (timeArray samples)
              (generateSleepStageTimeline samples []) tp n1)
    as (evs & n2 & parts & Hevs & Hconcat & HF).
  pose proof (channel_fold_lookup _ _ _ _ _ _ _ Hchans) as Hlook.
  eexists. exists n2. unfold bind at 1. rewrite Hchans.
  unfold bind. rewrite Hevs. unfold ret.
  split; [reflexivity|]. cbn [time channels sleepStages events].
  split; [reflexivity|]. split; [reflexivity|].
  split; [intros c Hin; apply (proj1 (Hlook c)); exact Hin|].
  split; [intros c Hout; rewrite (proj2 (Hlook c) Hout); apply lookup_empty|].
  exists evs, parts. split; [reflexivity|]. split; [exact Hconcat | exact HF].
Qed.

End DatasetFacts.

(** X5.  For every number of samples the dataset builder returns a dataset
    (it never fails) in which the time array, the stage array and the series
    of each of the fourteen channels all have [samples] entries; it has no
    other channel, its stage array is the timeline of the pattern Wake, N1,
    N2, N3, N2, REM over four cycles, and its events are those of
    [generateSleepEvents] on that time array and that stage array. *)
Theorem generated_dataset_shape {N : JSNumber}
    (samples : nat) (tp : tape) (n : nat) :
  exists d n',
    generateDataset samples tp n = (Normal d, n')
    /\ length (time d) = samples
    /\ (exists stages,
          sleepStages d = Some stages /\ length stages = samples
          /\ stages = stageTimeline cyclePattern 4 samples)
    /\ (forall c, In c this_channels ->
          exists series, channels d !! c = Some series
                         /\ length series = samples)
    /\ (forall c, ~ In c this_channels -> channels d !! c = None)
    /\ (exists evs parts,
          events d = Some evs /\ evs = concat parts
          /\ Forall2 (scheduled_part (time d)
                        (stageTimeline cyclePattern 4 samples))
               (map (fun k => k * 100) (seq 0 ((samples + 99) / 100))) parts).
Proof.
  destruct (generateDataset_spec samples tp n)
    as (d & n' & Hrun & Ht & Hs & Hin & Hout & Hev).
  exists d, n'. split; [exact Hrun|].
  split; [rewrite Ht; apply timeArray_length|].
  split; [eexists; split; [exact Hs|]; split;
          [apply stageTimeline_length | reflexivity]|].
  split; [exact Hin|]. split; [exact Hout|]. rewrite Ht. exact Hev.
Qed.

(** ** Detection on the synthesized dataset *)

(** X6.  Generation followed by detection.  On the dataset the builder
    returns, the detector returns an event list for every sequence of random
    values, and every event comes from a window start [k * 50] with
    [k * 50 + 50 < samples]: its time is [k * 50 / 10] and the timeline
    stage of sample [k * 50] is N2 for a spindle or a K-complex and REM for
    a REM burst. *)
Theorem detection_on_generated_dataset {N : JSNumber}
    (samples : nat) (tp : tape) (n : nat) :
  exists d n1,
    generateDataset samples tp n = (Normal d, n1)
    /\ forall tp' m,
         exists evs m',
           runSleepEventDetection (Some d) tp' m = (Normal evs, m')
           /\ length evs <= 2 * ((samples - 1) / 50)
           /\ forall e, In e evs ->
                exists k,
                  k * 50 + 50 < samples
                  /\ ev_time e = Some (div (of_nat (k * 50)) (lit 10))
                  /\ gated (Some (timelineStage cyclePattern 4 samples (k * 50)))
                       e.
Proof.
  destruct (generateDataset_spec samples tp n)
    as (d & n1 & Hrun & Ht & Hs & Hin & _).
  exists d, n1. split; [exact Hrun|]. intros tp' m.
  destruct (Hin "C3") as (series & HC & Hlen);
    [unfold this_channels; simpl; tauto|].
  destruct (detectEvents_completes 50 (Some d)) with (tp := tp') (n := m)
    as (evs & m' & Hdet).
  { intros d' [= <-]. rewrite Hs. discriminate. }
  exists evs, m'. split; [exact Hdet|]. split.
  - pose proof (detected_events_by_window_bound 50 d series tp' m m' evs
                  ltac:(lia) HC Hdet) as Hb.
    rewrite Hlen in Hb. exact Hb.
  - intros e He.
    destruct (detectEvents_spec _ _ _ _ _ _ Hdet e He)
      as (cd & stages & i & HC' & Hs' & Hi & Htime & Hg).
    assert (cd = series) as -> by congruence.
    assert (stages = stageTimeline cyclePattern 4 samples) as -> by congruence.
    rewrite Hlen in Hi. apply windowStarts_In in Hi as [[k ->] Hlt]; [|lia].
    exists k. split; [exact Hlt|].
    rewrite Htime, Ht, timeArray_lookup by lia.
    split; [reflexivity|].
    rewrite stageTimeline_lookup in Hg by lia. exact Hg.
Qed.

(** ** The parser: row limit, stored values, full lines *)

Section ParserFacts.
Context {N : JSNumber}.

Lemma fold_left_ext_In {A B} (f g : A -> B -> A) (l : list B) (a : A) :
  (forall acc x, In x l -> f acc x = g acc x) ->
  fold_left f l a = fold_left g l a.
Proof.
  revert a. induction l as [|x l IH]; intros a H; simpl; [reflexivity|].
  rewrite (H a x) by (left; reflexivity).
  apply IH. intros acc y Hy. apply H. right. exact Hy.
Qed.

Lemma nth_take_5000 (lines : list string) (i : nat) :
  i < 5000 -> nth i (take 5000 lines) "" = nth i lines "".
Proof.
  intros Hi. rewrite !nth_lookup, lookup_take_lt by exact Hi. reflexivity.
Qed.

Lemma row_indices_take (lines : list string) :
  row_indices (take 5000 lines) = row_indices lines.
Proof. unfold row_indices. rewrite length_take. f_equal. lia. Qed.

Lemma row_indices_bound (lines : list string) (i : nat) :
  In i (row_indices lines) -> 1 <= i < 5000 /\ i < length lines.
Proof. unfold row_indices. rewrite in_seq. lia. Qed.

(** The parser reads its text through the lines and never looks past the
    5000th. *)
Lemma parseCSVData_take (csvText : string) :
  parseCSVData csvText
  = let lines := take 5000 (csv_lines csvText) in
    let headers := split comma (nth 0 lines "") in
    let acc :=
      fold_left (fun acc i => parse_row headers lines i acc)
        (row_indices lines) ([], init_channels headers) in
    {| time := fst acc; channels := snd acc; sleepStages := None;
       events := None; samples := Some (length (fst acc)) |}.
Proof.
  cbv zeta. unfold parseCSVData. fold (csv_lines csvText).
  rewrite nth_take_5000 by lia. rewrite row_indices_take.
  rewrite (fold_left_ext_In
             (fun acc i => parse_row (split comma (nth 0 (csv_lines csvText) ""))
                             (take 5000 (csv_lines csvText)) i acc)
             (fun acc i => parse_row (split comma (nth 0 (csv_lines csvText) ""))
                             (csv_lines csvText) i acc)).
  - reflexivity.
  - intros acc i Hi. apply row_indices_bound in Hi.
    unfold parse_row. rewrite nth_take_5000 by lia. reflexivity.
Qed.

Lemma kept_rows_length (lines : list string) :
  length (kept_rows lines) <= 4999
  /\ length (kept_rows lines) <= length lines - 1.
Proof.
  unfold kept_rows.
  pose proof (length_filter (fun i => 2 <= length (row_values lines i))
                (row_indices lines)) as H.
  unfold row_indices in *. rewrite length_seq in H. lia.
Qed.

Lemma row_cells_In (headers lines : list string) (name : string) (i : nat)
    (v : num) :
  In v (row_cells headers lines name i) ->
  exists j,
    1 <= j < length (row_values lines i) /\ j < length headers
    /\ trim (nth j headers "") = name /\ v = csv_cell lines i j.
Proof.
  unfold row_cells. rewrite in_flat_map. intros (j & Hj & Hv).
  apply in_seq in Hj.
  destruct (String.eqb_spec (trim (nth j headers "")) name) as [Heq|_];
    [|destruct Hv].
  destruct Hv as [<-|[]]. exists j. unfold csv_cell. repeat split; try lia.
  exact Heq.
Qed.

Lemma num_or_cases (x y : num) :
  truthy (num_or x y) = true \/ num_or x y = y.
Proof. unfold num_or. destruct (truthy x) eqn:E; [left; exact E | right; reflexivity]. Qed.

Lemma map_nth_seq {A} (l : list A) (d : A) :
  map (fun j => nth j l d) (seq 0 (length l)) = l.
Proof.
  induction l as [|x l IH]; simpl; [reflexivity|].
  f_equal. rewrite <- seq_shift, map_map. exact IH.
Qed.

Lemma flat_map_single {A B} (key : A -> string) (g : A -> B) (name : string)
    (l : list A) (j : A) :
  NoDup (map key l) -> In j l -> key j = name ->
  flat_map (fun x => if String.eqb (key x) name then [g x] else []) l = [g j].
Proof.
  intros Hnd Hj Hkey. induction l as [|a l IH]; simpl in *; [destruct Hj|].
  apply NoDup_cons in Hnd as [Hnotin Hnd].
  destruct Hj as [->|Hj].
  - rewrite Hkey, String.eqb_refl. simpl. f_equal.
    assert (Hnone : forall x, In x l -> String.eqb (key x) name = false).
    { intros x Hx. apply String.eqb_neq. intros Hx'. apply Hnotin.
      apply list_elem_of_In. rewrite Hkey, <- Hx'. apply in_map. exact Hx. }
    clear -Hnone. induction l as [|x l IH]; simpl; [reflexivity|].
    rewrite (Hnone x) by (left; reflexivity). simpl. apply IH.
    intros y Hy. apply Hnone. right. exact Hy.
  - destruct (String.eqb_spec (key a) name) as [Ha|_].
    + exfalso. apply Hnotin. apply list_elem_of_In. rewrite Ha, <- Hkey.
      apply in_map. exact Hj.
    + simpl. apply IH; assumption.
Qed.

(** Under distinct channel names, a line with a field for every header
    column gives each channel exactly its cell. *)
Lemma row_cells_full (headers lines : list string) (i j : nat) :
  NoDup (map trim (tail headers)) ->
  length headers <= length (row_values lines i) ->
  1 <= j < length headers ->
  row_cells headers lines (trim (nth j headers "")) i = [csv_cell lines i j].
Proof.
  intros Hnd Hlen Hj. unfold row_cells.
  replace (Nat.min (length (row_values lines i)) (length headers) - 1)
    with (length (tail headers))
    by (destruct headers; simpl in *; lia).
  apply (flat_map_single (fun j' => trim (nth j' headers ""))
           (fun j' => csv_cell lines i j')).
  - destruct headers as [|h hs]; simpl in *; [lia|].
    rewrite <- seq_shift, map_map. simpl.
    rewrite <- (map_map (fun j' => nth j' hs "") trim), map_nth_seq.
    exact Hnd.
  - apply in_seq. destruct headers; simpl in *; lia.
  - reflexivity.
Qed.

End ParserFacts.

(** X7.  The parser keeps at most 4999 rows (the loop runs for the line
    numbers 1 to 4999), and never more than there are lines after the
    header.  It does not look past the first 5000 lines of the trimmed text:
    two texts whose first 5000 lines are the same give the same dataset. *)
Theorem csv_row_limit {N : JSNumber} (csvText csvText' : string) :
  (exists k,
     samples (parseCSVData csvText) = Some k
     /\ length (time (parseCSVData csvText)) = k
     /\ k <= 4999
     /\ k <= length (csv_lines csvText) - 1)
  /\ (take 5000 (csv_lines csvText) = take 5000 (csv_lines csvText') ->
      parseCSVData csvText = parseCSVData csvText').
Proof.
  split.
  - exists (length (kept_rows (csv_lines csvText))).
    split; [apply parseCSVData_samples|].
    split; [rewrite parseCSVData_time, length_map; reflexivity|].
    apply kept_rows_length.
  - intros Heq. rewrite (parseCSVData_take csvText), (parseCSVData_take csvText').
    cbv zeta. rewrite Heq. reflexivity.
Qed.

(** X8.  Every value the parser stores in a channel is the cell of a kept
    line in a column of that channel: [parseFloat] of the field, replaced by
    0 when that is falsy (NaN for text that does not start with a number, or
    zero).  So a stored value is truthy or it is 0; a NaN is never
    stored. *)
Theorem csv_stored_values {N : JSNumber}
    (csvText name : string) (series : list num) (v : num) :
  channels (parseCSVData csvText) !! name = Some series ->
  In v series ->
  (exists i j,
     In i (kept_rows (csv_lines csvText))
     /\ 1 <= j < length (row_values (csv_lines csvText) i)
     /\ j < length (csv_headers csvText)
     /\ trim (nth j (csv_headers csvText) "") = name
     /\ v = csv_cell (csv_lines csvText) i j)
  /\ (truthy v = true \/ v = lit 0).
Proof.
  intros Hch Hv. rewrite parseCSVData_channel in Hch.
  destruct (includes _ name); [|discriminate]. injection Hch as <-.
  apply in_flat_map in Hv as (i & Hi & Hv).
  apply row_cells_In in Hv as (j & Hj1 & Hj2 & Hname & ->).
  split; [exists i, j; repeat split; try assumption; lia|].
  unfold csv_cell. apply num_or_cases.
Qed.

Lemma csv_stored_values_witness :
  channels (parseCSVData (N := Exact.exact) MoreExamples.csv_full) !! "a"
    = Some [Exact.fin 1.5; Exact.fin 0; Exact.fin 30]
  /\ (truthy (JSNumber := Exact.exact) (Exact.fin 0) = true
      \/ Exact.fin 0 = lit (JSNumber := Exact.exact) 0).
Proof.
  assert (Hch : channels (parseCSVData (N := Exact.exact) MoreExamples.csv_full)
                  !! "a"
                = Some [Exact.fin 1.5; Exact.fin 0; Exact.fin 30])
    by (vm_compute; reflexivity).
  split; [exact Hch|].
  refine (proj2 (csv_stored_values (N := Exact.exact) MoreExamples.csv_full "a"
                   _ (Exact.fin 0) Hch _)).
  simpl. tauto.
Defined.

(** X9.  When the channel names of the header are distinct and every kept
    line has a field for every header column, the parsed dataset is
    rectangular: the series of the channel of column [j] is the list of the
    cells of column [j] of the kept lines, in the order of the lines, so it
    has [samples] values, like the time array. *)
Theorem csv_full_lines_rectangular {N : JSNumber} (csvText : string) (j : nat) :
  NoDup (map trim (tail (csv_headers csvText))) ->
  (forall i, In i (kept_rows (csv_lines csvText)) ->
             length (csv_headers csvText)
             <= length (row_values (csv_lines csvText) i)) ->
  1 <= j < length (csv_headers csvText) ->
  channels (parseCSVData csvText) !! trim (nth j (csv_headers csvText) "")
  = Some (map (fun i => csv_cell (csv_lines csvText) i j)
            (kept_rows (csv_lines csvText)))
  /\ samples (parseCSVData csvText)
     = Some (length (map (fun i => csv_cell (csv_lines csvText) i j)
                       (kept_rows (csv_lines csvText))))
  /\ length (time (parseCSVData csvText))
     = length (kept_rows (csv_lines csvText)).
Proof.
  intros Hnd Hfull Hj.
  split; [|split].
  - rewrite parseCSVData_channel, header_column_included by exact Hj.
    f_equal.
    induction (kept_rows (csv_lines csvText)) as [|i rows IH];
      simpl; [reflexivity|].
    rewrite row_cells_full; [|exact Hnd|apply Hfull; left; reflexivity|exact Hj].
    simpl. f_equal. apply IH. intros i' Hi'. apply Hfull. right. exact Hi'.
  - rewrite parseCSVData_samples, length_map. reflexivity.
  - rewrite parseCSVData_time, length_map. reflexivity.
Qed.

Lemma csv_full_lines_rectangular_witness :
  channels (parseCSVData (N := Exact.exact) MoreExamples.csv_full)
    !! trim (nth 2 (csv_headers MoreExamples.csv_full) "")
  = Some (map (fun i => csv_cell (csv_lines MoreExamples.csv_full) i 2)
            (kept_rows (csv_lines MoreExamples.csv_full)))
  /\ map (fun i => csv_cell (N := Exact.exact)
                     (csv_lines MoreExamples.csv_full) i 2)
       (kept_rows (csv_lines MoreExamples.csv_full))
     = [Exact.fin 2; Exact.fin (-4); Exact.fin 6].
Proof.
  split; [|vm_compute; reflexivity].
  refine (proj1 (csv_full_lines_rectangular (N := Exact.exact)
                   MoreExamples.csv_full 2 _ _ _)).
  - apply (bool_decide_unpack _). vm_compute. reflexivity.
  - intros i Hi. vm_compute in Hi.
    repeat (destruct Hi as [<-|Hi]; [vm_compute; lia|]). destruct Hi.
  - vm_compute. lia.
Defined.

(** ** A flat signal *)

Section FlatSignalFacts.
Import Exact.



Lemma Qltb_false (p q : Q) : (q <= p)%Q -> Qltb p q = false.
Proof.
  intros H. unfold Qltb. apply Qle_bool_iff in H. rewrite H. reflexivity.
Qed.






Lemma xdiv_fin (p q : Q) :
  Qis_zero q = false -> xdiv (Fin p) (Fin q) = Fin (Qred (p / q)).
Proof. intros H. unfold xdiv. rewrite H. reflexivity. Qed.












End FlatSignalFacts.



(** ** The two stage assignments of the generator *)

Section StageFacts.
Import Exact.

Lemma Qfloor_div (a b : Z) :
  (0 < b)%Z -> Qfloor (inject_Z a / inject_Z b) = (a / b)%Z.
Proof.
  intros Hb. destruct b as [|p|p]; try lia.
  assert (H : (inject_Z a / inject_Z (Z.pos p) == a # p)%Q).
  { unfold Qeq, Qdiv, Qmult, Qinv, inject_Z. simpl. lia. }
  rewrite (Qfloor_comp _ _ H). reflexivity.
Qed.

Lemma Qis_zero_false (q : Q) : ~ (q == 0)%Q -> Qis_zero q = false.
Proof.
  intros H. unfold Qis_zero. destruct (Qeq_bool q 0) eqn:E; [|reflexivity].
  apply Qeq_bool_iff in E. contradiction.
Qed.

Lemma inject_Z_pos_nonzero (z : Z) : (0 < z)%Z -> ~ (inject_Z z == 0)%Q.
Proof. intros Hz H. unfold Qeq in H. simpl in H. lia. Qed.

(** An integer-valued rational as an array index. *)
Lemma xindex_int (q : Q) (z : Z) :
  (q == inject_Z z)%Q -> (0 <= z)%Z -> xindex (Fin q) = Some (Z.to_nat z).
Proof.
  intros Hq Hz. unfold xindex.
  assert (Hf : Qfloor q = z) by (rewrite (Qfloor_comp _ _ Hq); apply Qfloor_Z).
  assert (Hint : Qis_int q = true).
  { unfold Qis_int. apply Qeq_bool_iff. rewrite Hf. exact Hq. }
  assert (Hnn : Qltb q 0 = false).
  { apply Qltb_false. rewrite Hq. change 0%Q with (inject_Z 0).
    rewrite <- Zle_Qle. exact Hz. }
  rewrite Hint, Hnn, Hf. reflexivity.
Qed.

Lemma of_nat_fin (i : nat) :
  of_nat (N := exact) i = Fin (Qred (inject_Z (Z.of_nat i))).
Proof. reflexivity. Qed.

Lemma channelStageIndex_exact (s i : nat) :
  1 <= s ->
  exists q,
    channelStageIndex (N := exact) s i = Fin q
    /\ (q == inject_Z (Z.of_nat (8 * i / s)))%Q.
Proof.
  intros Hs. unfold channelStageIndex. rewrite !of_nat_fin.
  change (@lit exact 8) with (Fin 8). change (@div exact) with xdiv.
  change (@Math_floor exact) with xfloor.
  assert (Hs0 : ~ (inject_Z (Z.of_nat s) == 0)%Q)
    by (apply inject_Z_pos_nonzero; lia).
  rewrite (xdiv_fin _ 8) by reflexivity.
  rewrite xdiv_fin.
  2:{ apply Qis_zero_false. rewrite !Qred_correct. intros H. apply Hs0.
      rewrite <- (Qmult_0_l (8)). rewrite <- H. field. }
  unfold xfloor, fin. eexists. split; [reflexivity|].
  rewrite Qred_correct.
  assert (Hx : (Qred (Qred (inject_Z (Z.of_nat i))
                      / Qred (Qred (inject_Z (Z.of_nat s)) / 8))
                == inject_Z (Z.of_nat (8 * i)) / inject_Z (Z.of_nat s))%Q).
  { rewrite !Qred_correct. rewrite Nat2Z.inj_mul, inject_Z_mult.
    change (inject_Z (Z.of_nat 8)) with 8%Q. field. exact Hs0. }
  rewrite (Qfloor_comp _ _ Hx), Qfloor_div by lia.
  rewrite <- Nat2Z.inj_div. reflexivity.
Qed.

Lemma channelStage_exact (s i : nat) :
  i < s ->
  channelStage (N := exact) s i = nth (8 * i / s) channelStagePattern "N2".
Proof.
  intros Hi. unfold channelStage, at_index.
  destruct (channelStageIndex_exact s i) as (q & -> & Hq); [lia|].
  change (@array_index exact) with xindex.
  rewrite (xindex_int q _ Hq) by lia. rewrite Nat2Z.id.
  assert (Hk : 8 * i / s < 8) by (apply Nat.Div0.div_lt_upper_bound; lia).
  destruct (8 * i / s) as [|[|[|[|[|[|[|[|k]]]]]]]]; try reflexivity. lia.
Qed.

Lemma timeline_index_arith (s i : nat) :
  1 <= s ->
  ((Z.of_nat (24 * i) - 6 * (Z.of_nat (4 * i) / Z.of_nat s) * Z.of_nat s)
     / Z.of_nat s)%Z
  = Z.of_nat ((24 * i / s) mod 6).
Proof.
  intros Hs.
  rewrite Nat2Z.inj_mod, Nat2Z.inj_div, !Nat2Z.inj_mul.
  set (a := Z.of_nat i). set (b := Z.of_nat s).
  assert (Hb : (0 < b)%Z) by (unfold b; lia).
  change (Z.of_nat 24) with 24%Z. change (Z.of_nat 6) with 6%Z.
  change (Z.of_nat 4) with 4%Z.
  replace (24 * a - 6 * (4 * a / b) * b)%Z
    with (24 * a + (- (6 * (4 * a / b))) * b)%Z by ring.
  rewrite Z.div_add by lia.
  rewrite Z.mod_eq by lia.
  replace (24 * a / b / 6)%Z with (4 * a / b)%Z; [ring|].
  rewrite Z.div_div by lia.
  replace (24 * a)%Z with ((4 * a) * 6)%Z by ring.
  rewrite Z.div_mul_cancel_r by lia. reflexivity.
Qed.

Lemma timelineIndex_exact (s i : nat) :
  1 <= s ->
  exists q,
    Math_floor (JSNumber := exact)
      (mul (div (rem (of_nat i) (div (of_nat s) (of_nat 4)))
              (div (of_nat s) (of_nat 4)))
         (of_nat (length cyclePattern)))
    = Fin q
    /\ (q == inject_Z (Z.of_nat ((24 * i / s) mod 6)))%Q.
Proof.
  intros Hs.
  change (of_nat (N := exact) 4) with (Fin 4).
  change (of_nat (N := exact) (length cyclePattern)) with (Fin 6).
  rewrite !of_nat_fin.
  change (@div exact) with xdiv. change (@mul exact) with xmul.
  change (@rem exact) with xrem. change (@Math_floor exact) with xfloor.
  assert (Hs0 : ~ (inject_Z (Z.of_nat s) == 0)%Q)
    by (apply inject_Z_pos_nonzero; lia).
  rewrite (xdiv_fin _ 4) by reflexivity.
  set (c := Qred (Qred (inject_Z (Z.of_nat s)) / 4)).
  assert (Hc : (c == inject_Z (Z.of_nat s) / 4)%Q)
    by (unfold c; rewrite !Qred_correct; reflexivity).
  assert (Hc0 : ~ (c == 0)%Q).
  { rewrite Hc. intros H. apply Hs0. rewrite <- (Qmult_0_l 4), <- H. field. }
  set (i' := Qred (inject_Z (Z.of_nat i))).
  assert (Hi' : (i' == inject_Z (Z.of_nat i))%Q) by apply Qred_correct.
  assert (Hquot : (i' / c == inject_Z (Z.of_nat (4 * i)) / inject_Z (Z.of_nat s))%Q).
  { rewrite Hi', Hc, Nat2Z.inj_mul, inject_Z_mult.
    change (inject_Z (Z.of_nat 4)) with 4%Q. field. exact Hs0. }
  assert (Htr : Qtrunc (i' / c) = (Z.of_nat (4 * i) / Z.of_nat s)%Z).
  { unfold Qtrunc. rewrite Qltb_false.
    - rewrite (Qfloor_comp _ _ Hquot). apply Qfloor_div. lia.
    - rewrite Hquot. apply Qle_shift_div_l.
      + change 0%Q with (inject_Z 0). rewrite <- Zlt_Qlt. lia.
      + rewrite Qmult_0_l. change 0%Q with (inject_Z 0).
        rewrite <- Zle_Qle. lia. }
  unfold xrem. rewrite (Qis_zero_false c Hc0), Htr.
  unfold fin. rewrite (xdiv_fin _ c (Qis_zero_false c Hc0)).
  unfold xmul, xfloor, fin. eexists. split; [reflexivity|].
  rewrite Qred_correct.
  match goal with |- (inject_Z (Qfloor ?x) == _)%Q =>
    assert (Hx : (x == inject_Z (Z.of_nat (24 * i)
                                 - 6 * (Z.of_nat (4 * i) / Z.of_nat s)
                                   * Z.of_nat s)
                       / inject_Z (Z.of_nat s))%Q)
  end.
  { rewrite !Qred_correct. rewrite Hi', Hc.
    unfold Z.sub. rewrite inject_Z_plus, inject_Z_opp, (Nat2Z.inj_mul 24 i), !inject_Z_mult.
    change (inject_Z 6) with 6%Q. change (inject_Z (Z.of_nat 24)) with 24%Q.
    field. exact Hs0. }
  rewrite (Qfloor_comp _ _ Hx), Qfloor_div by lia.
  rewrite timeline_index_arith by exact Hs. reflexivity.
Qed.

Lemma timelineStage_exact (s i : nat) :
  1 <= s ->
  timelineStage (N := exact) cyclePattern 4 s i
  = nth ((24 * i / s) mod 6) cyclePattern "N2".
Proof.
  intros Hs. unfold timelineStage, at_index.
  destruct (timelineIndex_exact s i Hs) as (q & -> & Hq).
  change (@array_index exact) with xindex.
  rewrite (xindex_int q _ Hq) by lia. rewrite Nat2Z.id.
  assert (Hk : (24 * i / s) mod 6 < 6) by (apply Nat.mod_upper_bound; lia).
  destruct ((24 * i / s) mod 6) as [|[|[|[|[|[|k]]]]]]; try reflexivity. lia.
Qed.

Lemma block_indices (b i : nat) :
  1 <= b -> 8 * i / (24 * b) = i / b / 3 /\ 24 * i / (24 * b) = i / b.
Proof.
  intros Hb. split.
  - replace (24 * b) with (8 * (b * 3)) by lia.
    rewrite Nat.Div0.div_mul_cancel_l by lia.
    rewrite Nat.Div0.div_div. reflexivity.
  - rewrite Nat.Div0.div_mul_cancel_l by lia. reflexivity.
Qed.

End StageFacts.

(** X11.  On exact numbers the two stage computations of the generator have
    integer closed forms.  At index [i] of a recording of [samples] samples,
    [generateRealisticChannelData] synthesises the signal of the stage at
    position [8 * i / samples] (integer division) of its eight-stage pattern,
    so it walks through that pattern once; [generateSleepStageTimeline]
    labels the index with the stage at position [(24 * i / samples) mod 6]
    of its six-stage pattern, so it walks through that pattern four times.
    Neither index leaves its pattern, hence the fallback ['N2'] is never
    taken. *)
Theorem stage_assignments_closed_form (samples i : nat) :
  i < samples ->
  channelStage (N := Exact.exact) samples i
  = nth (8 * i / samples) channelStagePattern "N2"
  /\ timelineStage (N := Exact.exact) cyclePattern 4 samples i
     = nth ((24 * i / samples) mod 6) cyclePattern "N2"
  /\ 8 * i / samples < length channelStagePattern
  /\ (24 * i / samples) mod 6 < length cyclePattern.
Proof.
  intros Hi. split; [|split; [|split]].
  - apply channelStage_exact. exact Hi.
  - apply timelineStage_exact. lia.
  - apply Nat.Div0.div_lt_upper_bound. simpl length. lia.
  - apply Nat.mod_upper_bound. simpl length. lia.
Qed.

Lemma stage_assignments_closed_form_witness :
  100 < 240
  /\ channelStage (N := Exact.exact) 240 100 = "N3"
  /\ timelineStage (N := Exact.exact) cyclePattern 4 240 100 = "N2".
Proof.
  assert (H : 100 < 240) by lia.
  split; [exact H|].
  destruct (stage_assignments_closed_form 240 100 H) as (H1 & H2 & _).
  split; [exact H1 | exact H2].
Defined.

(** X12.  The stage whose waveform [generateRealisticChannelData] puts into
    the channels is not the stage that [generateSleepStageTimeline] stores
    for the same index.  On exact numbers, for a recording whose length is a
    multiple [24 * b] of 24 samples (the generated recording has
    [24 * 1500] samples), the two stages at index [i] are equal exactly when
    the block [i / b] is one of 0, 8, 9, 14, 17, 20 and 21: on the other
    17 of the 24 blocks the signal of one stage carries the label of
    another. *)
Theorem synthesis_stage_and_label (b i : nat) :
  i < 24 * b ->
  (channelStage (N := Exact.exact) (24 * b) i
   = timelineStage (N := Exact.exact) cyclePattern 4 (24 * b) i
   <-> In (i / b) [0; 8; 9; 14; 17; 20; 21]).
Proof.
  intros Hi.
  assert (Hb : 1 <= b) by lia.
  rewrite channelStage_exact by exact Hi.
  rewrite timelineStage_exact by lia.
  destruct (block_indices b i Hb) as [-> ->].
  assert (Hu : i / b < 24) by (apply Nat.Div0.div_lt_upper_bound; lia).
  generalize dependent (i / b). intros u Hu.
  do 24 (destruct u as [|u];
         [cbn; split; [intros H; try discriminate H; tauto
                      | intros H; try reflexivity;
                        repeat (destruct H as [H|H]; [discriminate H|]);
                        destruct H]
         | try lia]).
Qed.

Lemma synthesis_stage_and_label_witness :
  100 < 24 * 10
  /\ (channelStage (N := Exact.exact) (24 * 10) 100
      = timelineStage (N := Exact.exact) cyclePattern 4 (24 * 10) 100
      <-> In (100 / 10) [0; 8; 9; 14; 17; 20; 21]).
Proof.
  assert (H : 100 < 24 * 10) by lia.
  split; [exact H|].
  exact (synthesis_stage_and_label 10 100 H).
Defined.

(** ** The variance and the activity level *)

Section VarianceFacts.
Import Exact.


Lemma xadd_fin (a b : Q) : xadd (Fin a) (Fin b) = Fin (Qred (a + b)).
Proof. reflexivity. Qed.







End VarianceFacts.


(** ** Region metrics and the time cursor *)

Section CompareFacts.
Import Exact ExactExt.

Lemma Qltb_true_lt (p q : Q) : Qltb p q = true -> (p < q)%Q.
Proof.
  unfold Qltb. intros H. apply Qnot_le_lt. intros Hle.
  apply Qle_bool_iff in Hle. rewrite Hle in H. discriminate H.
Qed.

Lemma Qltb_false_le (p q : Q) : Qltb p q = false -> (q <= p)%Q.
Proof.
  unfold Qltb. intros H. apply Qle_bool_iff.
  destruct (Qle_bool q p); [reflexivity | discriminate H].
Qed.

Lemma Qle_bool_false (p q : Q) : (q < p)%Q -> Qle_bool p q = false.
Proof.
  intros H. destruct (Qle_bool p q) eqn:E; [|reflexivity].
  apply Qle_bool_iff in E. exfalso. exact (Qlt_not_le _ _ H E).
Qed.

Lemma band_of_frequency (base width q lo hi : Q) :
  (0 <= q)%Q -> (q < 1)%Q -> (0 <= width)%Q ->
  (lo < base)%Q -> (base + width <= hi)%Q ->
  xle (xadd (fin base) (xmul (Fin q) (fin width))) (fin lo) = false
  /\ xle (xadd (fin base) (xmul (Fin q) (fin width))) (fin hi) = true.
Proof.
  intros Hq0 Hq1 Hw Hlo Hhi.
  unfold fin, xmul, xadd, xle, fin.
  assert (Hprod : (0 <= q * width)%Q) by (apply Qmult_le_0_compat; assumption).
  assert (Hprod' : (q * width <= width)%Q).
  { rewrite <- (Qmult_1_l width) at 2. apply Qmult_le_compat_r; [|exact Hw].
    apply Qlt_le_weak. exact Hq1. }
  split.
  - apply Qle_bool_false. rewrite !Qred_correct.
    apply Qlt_le_trans with base; [exact Hlo|].
    rewrite <- (Qplus_0_r base) at 1. apply Qplus_le_r.
    exact Hprod.
  - apply Qle_bool_iff. rewrite !Qred_correct.
    apply Qle_trans with (base + width)%Q; [|exact Hhi].
    apply Qplus_le_r. exact Hprod'.
Qed.

End CompareFacts.

(** X15.  The band name shown for a region is fixed by the first of the two
    values [calculateDominantFrequency] draws, and it is never ['Gamma'].
    On exact numbers, with a first draw [p] and a second draw in [[0, 1)],
    [getFrequencyBandName] maps the frequency to ['Delta'] when [p < 0.25],
    to ['Theta'] when [0.25 <= p < 0.5], to ['Alpha'] when
    [0.5 <= p < 0.75] and to ['Beta'] otherwise: the four ranges
    the frequency is taken from lie inside the bands their comments name.
    The series passed as argument is not read. *)
Theorem dominant_frequency_band
    (data : list (@num Exact.exact)) (tp : tape (N := Exact.exact)) (n : nat)
    (p q : Q) :
  tp n = Exact.Fin p -> tp (S n) = Exact.Fin q ->
  (0 <= q)%Q -> (q < 1)%Q ->
  exists f,
    calculateDominantFrequency data tp n = (Normal f, S (S n))
    /\ getFrequencyBandName (C := ExactExt.exact_ext) f
       = (if Exact.Qltb p (1 # 4) then "Delta"
          else if Exact.Qltb p (1 # 2) then "Theta"
          else if Exact.Qltb p (3 # 4) then "Alpha"
          else "Beta")
    /\ getFrequencyBandName (C := ExactExt.exact_ext) f <> "Gamma".
Proof.
  intros Hp Hq Hq0 Hq1.
  unfold calculateDominantFrequency, bind, Math_random, ret.
  rewrite Hp.
  change (@lt Exact.exact (Exact.Fin p) (lit 0.25)) with (Exact.Qltb p (1 # 4)).
  change (@lt Exact.exact (Exact.Fin p) (lit 0.5)) with (Exact.Qltb p (1 # 2)).
  change (@lt Exact.exact (Exact.Fin p) (lit 0.75)) with (Exact.Qltb p (3 # 4)).
  assert (Hband : forall base width lo hi : Q,
             (0 <= width)%Q -> (lo < base)%Q -> (base + width <= hi)%Q ->
             ExactExt.xle
               (add (lit base) (mul (tp (S n)) (lit width))) (Exact.fin lo)
             = false
             /\ ExactExt.xle
                  (add (lit base) (mul (tp (S n)) (lit width))) (Exact.fin hi)
                = true).
  { intros base width lo hi Hw Hlo Hhi. rewrite Hq.
    apply band_of_frequency; assumption. }
  unfold getFrequencyBandName.
  change (@lte Exact.exact ExactExt.exact_ext) with ExactExt.xle.
  change (@lit Exact.exact 4) with (Exact.fin 4).
  change (@lit Exact.exact 8) with (Exact.fin 8).
  change (@lit Exact.exact 12) with (Exact.fin 12).
  change (@lit Exact.exact 30) with (Exact.fin 30).
  destruct (Exact.Qltb p (1 # 4)); [|destruct (Exact.Qltb p (1 # 2));
                                  [|destruct (Exact.Qltb p (3 # 4))]];
    cbv beta iota; eexists; (split; [reflexivity|]).
  - destruct (Hband 2 2 1 4)%Q as [_ H4]; [easy..|].
    rewrite H4. split; [reflexivity | discriminate].
  - destruct (Hband 6 2 4 8)%Q as [H4 H8]; [easy..|].
    rewrite H4, H8. split; [reflexivity | discriminate].
  - destruct (Hband 9 3 4 12)%Q as [H4 H12]; [easy..|].
    destruct (Hband 9 3 8 12)%Q as [H8 _]; [easy..|].
    rewrite H4, H8, H12. split; [reflexivity | discriminate].
  - destruct (Hband 15 10 4 30)%Q as [H4 H30]; [easy..|].
    destruct (Hband 15 10 8 30)%Q as [H8 _]; [easy..|].
    destruct (Hband 15 10 12 30)%Q as [H12 _]; [easy..|].
    rewrite H4, H8, H12, H30. split; [reflexivity | discriminate].
Qed.

Lemma dominant_frequency_band_witness :
  (0 <= 7 # 8)%Q /\ (7 # 8 < 1)%Q
  /\ exists f,
       calculateDominantFrequency (N := Exact.exact) [] Examples.tape_high 0
       = (Normal f, 2)
       /\ getFrequencyBandName (C := ExactExt.exact_ext) f = "Beta".
Proof.
  assert (H0 : (0 <= 7 # 8)%Q) by (vm_compute; discriminate).
  assert (H1 : (7 # 8 < 1)%Q) by (vm_compute; reflexivity).
  split; [exact H0|]. split; [exact H1|].
  destruct (dominant_frequency_band [] Examples.tape_high 0 (7 # 8) (7 # 8)
              eq_refl eq_refl H0 H1) as (f & Hf & Hband & _).
  exists f. split; [exact Hf | exact Hband].
Defined.

(** X16.  [generateRegionalSignal] never fails and draws exactly one random
    value [r], whatever the region: it returns a region term plus the noise
    [(r - 0.5) * 8].  Only ['frontal'], ['temporal'], ['parietal'] and
    ['occipital'] have a region term; any other label (['central'], the
    region [getChannelRegion] gives to C3 and C4, included) leaves the
    term at 0, so the signal is the noise alone.  The time is not read in
    that case. *)
Theorem regional_signal_noise {N : JSNumber}
    (t : num) (region : string) (tp : tape) (n : nat) :
  exists s,
    generateRegionalSignal t region tp n
    = (Normal (add s (mul (sub (tp n) (lit 0.5)) (lit 8))), S n)
    /\ (~ In region ["frontal"; "temporal"; "parietal"; "occipital"] ->
        s = lit 0
        /\ forall t', generateRegionalSignal t' region tp n
                      = generateRegionalSignal t region tp n).
Proof.
  unfold generateRegionalSignal, bind, Math_random, ret.
  eexists. split; [reflexivity|].
  intros Hnot.
  assert (H1 : String.eqb region "frontal" = false).
  { apply String.eqb_neq. intros ->. apply Hnot. simpl. tauto. }
  assert (H2 : String.eqb region "temporal" = false).
  { apply String.eqb_neq. intros ->. apply Hnot. simpl. tauto. }
  assert (H3 : String.eqb region "parietal" = false).
  { apply String.eqb_neq. intros ->. apply Hnot. simpl. tauto. }
  assert (H4 : String.eqb region "occipital" = false).
  { apply String.eqb_neq. intros ->. apply Hnot. simpl. tauto. }
  rewrite H1, H2, H3, H4. split; [reflexivity|]. intros t'. reflexivity.
Qed.

From Stdlib Require Import Lqa.

Section CursorFacts.
Import Exact.

Lemma xmin_fin (a b : Q) :
  xmin (Fin a) (Fin b) = Fin (if Qltb b a then b else a).
Proof. unfold xmin, xlt. destruct (Qltb b a); reflexivity. Qed.

Lemma xmax_fin (a b : Q) :
  xmax (Fin a) (Fin b) = Fin (if Qltb a b then b else a).
Proof. unfold xmax, xlt. destruct (Qltb a b); reflexivity. Qed.

Lemma xsub_fin (a b : Q) : xsub (Fin a) (Fin b) = Fin (Qred (a + Qred (- b))).
Proof. reflexivity. Qed.

Lemma Qltb_cases (p q : Q) :
  Qltb p q = true /\ (p < q)%Q \/ Qltb p q = false /\ (q <= p)%Q.
Proof.
  destruct (Qltb p q) eqn:E.
  - left. split; [reflexivity | apply Qltb_true_lt; exact E].
  - right. split; [reflexivity | apply Qltb_false_le; exact E].
Qed.

(** [Math.max(0, Math.min(t, m))] for [0 <= m]. *)
Lemma clamp_fin (t m : Q) :
  (0 <= m)%Q ->
  exists c, xmax (Fin 0) (xmin (Fin t) (Fin m)) = Fin c
            /\ (0 <= c)%Q /\ (c <= m)%Q
            /\ ((0 <= t)%Q -> (t <= m)%Q -> (c == t)%Q).
Proof.
  intros Hm. rewrite xmin_fin, xmax_fin.
  eexists. split; [reflexivity|].
  destruct (Qltb_cases m t) as [[-> H1]|[-> H1]];
    [destruct (Qltb_cases 0 m) as [[-> H2]|[-> H2]]
    |destruct (Qltb_cases 0 t) as [[-> H2]|[-> H2]]];
    repeat split; intros; lra.
Qed.

(** [Math.max(0, c - 150)] and [Math.min(len, start + 300)] for
    [0 <= c < len]. *)
Lemma window_fin (c w h l : Q) :
  (0 <= c)%Q -> (c <= l - 1)%Q -> (w == 300)%Q -> (h == 150)%Q ->
  exists s e,
    xmax (Fin 0) (xsub (Fin c) (Fin h)) = Fin s
    /\ xmin (Fin l) (xadd (Fin s) (Fin w)) = Fin e
    /\ (0 <= s)%Q /\ (s <= c)%Q /\ (c < e)%Q /\ (e <= l)%Q
    /\ (e - s <= 300)%Q.
Proof.
  intros Hc0 Hcl Hw Hh.
  rewrite xsub_fin, xmax_fin.
  eexists. eexists. split; [reflexivity|].
  rewrite xadd_fin, xmin_fin. split; [reflexivity|].
  set (d := Qred (c + Qred (- h))).
  assert (Hd : (d == c - 150)%Q)
    by (unfold d; rewrite !Qred_correct, Hh; ring).
  destruct (Qltb_cases 0 d) as [[-> H1]|[-> H1]].
  - set (u := Qred (d + w)).
    assert (Hu : (u == d + 300)%Q)
      by (unfold u; rewrite Qred_correct, Hw; reflexivity).
    destruct (Qltb_cases u l) as [[-> H2]|[-> H2]]; repeat split; lra.
  - set (u := Qred (0 + w)).
    assert (Hu : (u == 300)%Q)
      by (unfold u; rewrite Qred_correct, Hw; ring).
    destruct (Qltb_cases u l) as [[-> H2]|[-> H2]]; repeat split; lra.
Qed.

End CursorFacts.

(** X17.  The cursor stays on the recording and inside the plotted
    window.  On exact numbers, for a recording of [len >= 1] samples with
    [maxTime = len - 1] (as the generator and the loader set it) and every
    finite [timeIndex], [updateTimePosition] stores an index [c] with
    [0 <= c <= len - 1], equal to [timeIndex] when that is already in the
    range, and shows the time [c / 10]; the window
    [[startIndex, endIndex)] that [updateMainEEGPlot] then cuts out
    satisfies [0 <= startIndex <= c < endIndex <= len] and holds at most
    300 samples. *)
Theorem cursor_inside_plot_window (timeIndex : Q) (len : nat) :
  1 <= len ->
  exists c s e : Q,
    updateTimePosition (N := Exact.exact) (Exact.Fin timeIndex)
      (sub (of_nat len) (lit 1))
    = (Exact.Fin c, Exact.fin (c / 10))
    /\ mainPlotWindow (N := Exact.exact) (Exact.Fin c) len
       = (Exact.Fin s, Exact.Fin e)
    /\ (0 <= c)%Q /\ (c <= inject_Z (Z.of_nat len) - 1)%Q
    /\ ((0 <= timeIndex)%Q -> (timeIndex <= inject_Z (Z.of_nat len) - 1)%Q ->
        (c == timeIndex)%Q)
    /\ (0 <= s)%Q /\ (s <= c)%Q /\ (c < e)%Q
    /\ (e <= inject_Z (Z.of_nat len))%Q /\ (e - s <= 300)%Q.
Proof.
  intros Hlen.
  assert (Hl : (1 <= inject_Z (Z.of_nat len))%Q).
  { change 1%Q with (inject_Z 1). rewrite <- Zle_Qle. lia. }
  unfold updateTimePosition, mainPlotWindow.
  rewrite !of_nat_fin.
  change (@lit Exact.exact) with Exact.fin.
  change (@sub Exact.exact) with Exact.xsub.
  change (@add Exact.exact) with Exact.xadd.
  change (@div Exact.exact) with Exact.xdiv.
  change (@Math_min2 Exact.exact) with Exact.xmin.
  change (@Math_max2 Exact.exact) with Exact.xmax.
  change (Exact.fin 0) with (Exact.Fin 0).
  change (Exact.xdiv (Exact.fin 300) (Exact.fin 2)) with (Exact.Fin 150).
  change (Exact.fin 300) with (Exact.Fin 300).
  change (Exact.fin 1) with (Exact.Fin 1).
  change (Exact.fin 10) with (Exact.Fin 10).
  set (l := Qred (inject_Z (Z.of_nat len))).
  change (Exact.xsub (Exact.Fin l) (Exact.Fin 1))
    with (Exact.Fin (Qred (l + Qred (- 1)))).
  set (m := Qred (l + Qred (- 1))).
  assert (Hm : (m == inject_Z (Z.of_nat len) - 1)%Q).
  { unfold m, l. rewrite !Qred_correct. reflexivity. }
  destruct (clamp_fin timeIndex m) as (c & Hc & Hc0 & Hcm & Hct); [lra|].
  assert (Hl' : (l == inject_Z (Z.of_nat len))%Q) by apply Qred_correct.
  destruct (window_fin c 300 150 l) as (s & e & Hs & He & Hw);
    [lra | lra | reflexivity | reflexivity |].
  exists c, s, e. rewrite Hc, Hs, He.
  split; [reflexivity|]. split; [reflexivity|].
  repeat split; try lra; intros H1 H2; apply Hct; lra.
Qed.

Lemma cursor_inside_plot_window_witness :
  1 <= 400
  /\ exists c s e : Q,
       updateTimePosition (N := Exact.exact) (Exact.Fin 500)
         (sub (of_nat 400) (lit 1))
       = (Exact.Fin c, Exact.fin (c / 10))
       /\ mainPlotWindow (N := Exact.exact) (Exact.Fin c) 400
          = (Exact.Fin s, Exact.Fin e)
       /\ (c <= inject_Z (Z.of_nat 400) - 1)%Q /\ (c < e)%Q.
Proof.
  assert (H : 1 <= 400) by lia.
  split; [exact H|].
  destruct (cursor_inside_plot_window 500 400 H)
    as (c & s & e & H1 & H2 & _ & H3 & _ & _ & _ & H4 & _).
  exists c, s, e. repeat split; assumption.
Defined.

(** ** The visualizer's parser *)

Section SecondParserFacts.
Context {N : JSNumber}.

(** The row after the header indices below [m]. *)
Lemma row_prefix_lookup (headers values : list string) (h : string) (m : nat) :
  let row :=
    fold_left
      (fun row index =>
         set_property (nth index headers "")
           (parseCSV_cell (values !! index)) row)
      (seq 0 m) (∅ : gmap string (cell num)) in
  (h = "__proto__" \/ (forall j, j < m -> nth j headers "" <> h) ->
   row !! h = None)
  /\ (forall j, j < m -> nth j headers "" = h -> h <> "__proto__" ->
      (forall j', j < j' < m -> nth j' headers "" <> h) ->
      row !! h = Some (parseCSV_cell (values !! j))).
Proof.
  induction m as [|m [IHnone IHsome]]; cbn zeta.
  - split; [intros _; apply lookup_empty | intros j Hj; lia].
  - rewrite seq_S, fold_left_app. cbn [fold_left Nat.add].
    unfold set_property at 1 3.
    destruct (String.eqb (nth m headers "") "__proto__") eqn:Ep.
    + apply String.eqb_eq in Ep. split.
      * intros [Hh|Hh]; apply IHnone; [left; exact Hh|].
        right. intros j Hj. apply Hh. lia.
      * intros j Hj Hjh Hp Hlast.
        assert (j <> m) by (intros ->; congruence).
        apply IHsome; [lia | exact Hjh | exact Hp |].
        intros j' Hj'. apply Hlast. lia.
    + apply String.eqb_neq in Ep. split.
      * intros Hh.
        assert (Hm : nth m headers "" <> h).
        { destruct Hh as [->|Hh]; [exact Ep | apply Hh; lia]. }
        rewrite lookup_insert_ne by exact Hm. apply IHnone.
        destruct Hh as [Hh|Hh]; [left; exact Hh|].
        right. intros j Hj. apply Hh. lia.
      * intros j Hj Hjh Hp Hlast.
        destruct (Nat.eq_dec j m) as [->|Hjm].
        -- rewrite Hjh, lookup_insert_eq. reflexivity.
        -- assert (Hm : nth m headers "" <> h) by (apply Hlast; lia).
           rewrite lookup_insert_ne by exact Hm.
           apply IHsome; [lia | exact Hjh | exact Hp |].
           intros j' Hj'. apply Hlast. lia.
Qed.

(** The last index below [m] that holds [h], if any. *)
Lemma last_occurrence (headers : list string) (h : string) (m : nat) :
  (forall j, j < m -> nth j headers "" <> h)
  \/ exists j, j < m /\ nth j headers "" = h
               /\ forall j', j < j' < m -> nth j' headers "" <> h.
Proof.
  induction m as [|m IH]; [left; intros j Hj; lia|].
  destruct (string_dec (nth m headers "") h) as [E|E].
  - right. exists m. split; [lia|]. split; [exact E|]. intros j' Hj'. lia.
  - destruct IH as [IH|(j & Hj & Hjh & Hlast)].
    + left. intros j Hj. destruct (Nat.eq_dec j m) as [->|]; [exact E|].
      apply IH. lia.
    + right. exists j. split; [lia|]. split; [exact Hjh|].
      intros j' Hj'. destruct (Nat.eq_dec j' m) as [->|]; [exact E|].
      apply Hlast. lia.
Qed.

Lemma parseCSV_row_keys (headers values : list string) (h : string) :
  is_Some (parseCSV_row headers values !! h)
  <-> In h headers /\ h <> "__proto__".
Proof.
  unfold parseCSV_row.
  destruct (row_prefix_lookup headers values h (length headers))
    as [Hnone Hsome]. cbn zeta in Hnone, Hsome.
  split.
  - intros Hs.
    destruct (string_dec h "__proto__") as [Ep|Ep].
    { rewrite Hnone in Hs by (left; exact Ep). destruct Hs; discriminate. }
    split; [|exact Ep].
    destruct (last_occurrence headers h (length headers))
      as [Hno|(j & Hj & Hjh & _)].
    + rewrite Hnone in Hs by (right; exact Hno). destruct Hs; discriminate.
    + rewrite <- Hjh. apply nth_In. exact Hj.
  - intros [Hin Hp].
    destruct (last_occurrence headers h (length headers))
      as [Hno|(j & Hj & Hjh & Hlast)].
    + exfalso. destruct (In_nth _ _ "" Hin) as (j & Hj & Hjh).
      exact (Hno j Hj Hjh).
    + rewrite (Hsome j Hj Hjh Hp Hlast). eexists. reflexivity.
Qed.

Lemma parseCSV_row_cell (headers values : list string) (h : string) (j : nat) :
  headers !! j = Some h -> h <> "__proto__" ->
  (forall j', j < j' -> headers !! j' <> Some h) ->
  parseCSV_row headers values !! h = Some (parseCSV_cell (values !! j)).
Proof.
  intros Hj Hp Hlast.
  assert (Hlt : j < length headers) by (eapply lookup_lt_Some; exact Hj).
  destruct (row_prefix_lookup headers values h (length headers))
    as [_ Hsome]. cbn zeta in Hsome.
  apply Hsome; [exact Hlt | | exact Hp |].
  - apply nth_lookup_Some. exact Hj.
  - intros j' [Hj1 Hj2] E. apply (Hlast j' Hj1).
    destruct (lookup_lt_is_Some_2 headers j' Hj2) as [y Hy].
    rewrite (nth_lookup_Some _ _ "" _ Hy) in E. rewrite Hy, E. reflexivity.
Qed.

Lemma parseCSV_data_lookup (csvText : string) (k : nat)
    (row : gmap string (cell num)) :
  tbl_data (parseCSV csvText) !! k = Some row ->
  S k < length (csv_lines csvText)
  /\ row = parseCSV_row (map trim (csv_headers csvText))
             (map trim (row_values (csv_lines csvText) (S k))).
Proof.
  unfold parseCSV, csv_headers, row_values, csv_lines. cbn [tbl_data].
  intros H. rewrite list_lookup_fmap in H.
  destruct (seq 1 (length (split newline (trim csvText)) - 1) !! k)
    as [i|] eqn:E; [|discriminate H].
  apply lookup_seq in E as [-> Hk]. cbn in H. injection H as <-.
  split; [lia | reflexivity].
Qed.

End SecondParserFacts.

(** X18.  [parseCSV], the parser of the brain visualizer, keeps every line
    and gives every row the same keys.  For every input it returns the
    trimmed fields of the first line as headers and one row for each
    further line, blank lines and lines with a single field included and
    without a limit on their number (the monitor's [parseCSVData] drops
    lines with fewer than two fields and stops before line 5000); each row
    has exactly the header names as keys, the name [__proto__] excepted,
    whatever the number of fields of its line. *)
Theorem visualizer_parser_rows {N : JSNumber} (csvText : string) :
  tbl_headers (parseCSV csvText) = map trim (csv_headers csvText)
  /\ length (tbl_data (parseCSV csvText)) = length (csv_lines csvText) - 1
  /\ forall k row,
       tbl_data (parseCSV csvText) !! k = Some row ->
       forall h,
         is_Some (row !! h)
         <-> In h (tbl_headers (parseCSV csvText)) /\ h <> "__proto__".
Proof.
  split; [reflexivity|]. split.
  - unfold parseCSV, csv_lines. cbn [tbl_data].
    rewrite length_map, length_seq. reflexivity.
  - intros k row Hrow h.
    destruct (parseCSV_data_lookup csvText k row Hrow) as [_ ->].
    apply parseCSV_row_keys.
Qed.

(** X19.  What a row of [parseCSV] holds.  In the row of line [k + 1], the
    property named by the header of column [j] (a name other than
    [__proto__], and the last column of that name) is the field [j] of the
    line, trimmed: kept as a string when [isNaN] of it holds, converted by
    [parseFloat] otherwise.  When the line has no field [j] the property is
    [undefined]: a short line is padded, not rejected. *)
Theorem visualizer_parser_cells {N : JSNumber}
    (csvText : string) (k j : nat) (row : gmap string (cell num))
    (h : string) :
  tbl_data (parseCSV csvText) !! k = Some row ->
  tbl_headers (parseCSV csvText) !! j = Some h ->
  h <> "__proto__" ->
  (forall j', j < j' -> tbl_headers (parseCSV csvText) !! j' <> Some h) ->
  let fields := map trim (row_values (csv_lines csvText) (S k)) in
  row !! h = Some (parseCSV_cell (fields !! j))
  /\ (length fields <= j -> row !! h = Some CUndefined).
Proof.
  intros Hrow Hj Hp Hlast. cbn zeta.
  destruct (parseCSV_data_lookup csvText k row Hrow) as [_ ->].
  set (fields := map trim (row_values (csv_lines csvText) (S k))).
  assert (Hcell : parseCSV_row (map trim (csv_headers csvText)) fields !! h
                  = Some (parseCSV_cell (fields !! j))).
  { apply parseCSV_row_cell; [exact Hj | exact Hp | exact Hlast]. }
  split; [exact Hcell|].
  intros Hlen. rewrite Hcell, (lookup_ge_None_2 fields j Hlen). reflexivity.
Qed.

Lemma visualizer_parser_cells_witness :
  exists row,
    tbl_data (parseCSV (N := Exact.exact) MoreExamples.csv_mixed) !! 0
    = Some row
    /\ row !! "b" = Some CUndefined.
Proof.
  set (row := parseCSV_row (N := Exact.exact) ["t"; "a"; "b"] ["1"; "x"]).
  assert (Hrow : tbl_data (parseCSV (N := Exact.exact) MoreExamples.csv_mixed)
                 !! 0 = Some row) by reflexivity.
  assert (Hj : tbl_headers (parseCSV (N := Exact.exact) MoreExamples.csv_mixed)
               !! 2 = Some "b") by reflexivity.
  assert (Hp : "b" <> "__proto__") by discriminate.
  assert (Hlast : forall j', 2 < j' ->
            tbl_headers (parseCSV (N := Exact.exact) MoreExamples.csv_mixed)
            !! j' <> Some "b").
  { intros j' Hj'. destruct j' as [|[|[|j']]]; [lia | lia | lia |].
    discriminate. }
  exists row. split; [exact Hrow|].
  destruct (visualizer_parser_cells MoreExamples.csv_mixed 0 2 row "b"
              Hrow Hj Hp Hlast) as [_ Hshort].
  apply Hshort. vm_compute. lia.
Defined.

Section FieldFacts.
Import Exact.

Lemma trim_end_id (s : string) :
  all_chars (fun c => negb (is_whitespace c)) s = true -> trim_end s = s.
Proof.
  induction s as [|c s IH]; [reflexivity|].
  cbn [all_chars trim_end]. intros H.
  apply andb_true_iff in H as [Hc Hs]. rewrite (IH Hs).
  destruct s; [|reflexivity].
  apply negb_true_iff in Hc. rewrite Hc. reflexivity.
Qed.

Lemma all_chars_impl (p q : ascii -> bool) (s : string) :
  (forall c, p c = true -> q c = true) ->
  all_chars p s = true -> all_chars q s = true.
Proof.
  intros Hpq. induction s as [|c s IH]; [reflexivity|].
  cbn [all_chars]. intros H. apply andb_true_iff in H as [Hc Hs].
  rewrite (Hpq c Hc), (IH Hs). reflexivity.
Qed.

Lemma hex_digit_not_space (c : ascii) :
  is_hex_digit c = true -> negb (is_whitespace c) = true.
Proof.
  destruct c as [[] [] [] [] [] [] [] []]; vm_compute;
    intros H; try reflexivity; discriminate H.
Qed.

Lemma narrow_digit_is_hex (c : ascii) :
  is_octal_digit c = true \/ is_binary_digit c = true ->
  is_hex_digit c = true.
Proof.
  destruct c as [[] [] [] [] [] [] [] []]; vm_compute;
    intros [H|H]; try reflexivity; discriminate H.
Qed.

Lemma digits1_all (p : ascii -> bool) (s : string) :
  digits1 p s = true -> all_chars p s = true.
Proof. destruct s; [discriminate | exact (fun H => H)]. Qed.

Lemma is_char_eq (c : ascii) (s : string) :
  is_char c s = true -> s = String c EmptyString.
Proof. unfold is_char. intros H. apply String.eqb_eq in H. congruence. Qed.

(** A non-decimal integer literal: its shape, and what [parseFloat] reads
    of it. *)
Lemma non_decimal_shape (s : string) :
  non_decimal_integer s = true ->
  exists c r,
    s = String "0" (String c r)
    /\ In c ["x"; "X"; "o"; "O"; "b"; "B"]%char
    /\ all_chars is_hex_digit r = true.
Proof.
  destruct s as [|z [|c r]]; try discriminate.
  cbn [non_decimal_integer]. intros H.
  apply andb_true_iff in H as [Hz H].
  apply is_char_eq in Hz. injection Hz as <-.
  exists c, r. split; [reflexivity|].
  destruct (is_char c "x" || is_char c "X") eqn:Ex.
  { split.
    - apply orb_true_iff in Ex as [E|E]; apply is_char_eq in E;
        injection E as <-; simpl; tauto.
    - apply digits1_all. exact H. }
  destruct (is_char c "o" || is_char c "O") eqn:Eo.
  { split.
    - apply orb_true_iff in Eo as [E|E]; apply is_char_eq in E;
        injection E as <-; simpl; tauto.
    - apply digits1_all in H. revert H. apply all_chars_impl.
      intros d Hd. apply narrow_digit_is_hex. left. exact Hd. }
  destruct (is_char c "b" || is_char c "B") eqn:Eb; [|discriminate H].
  split.
  - apply orb_true_iff in Eb as [E|E]; apply is_char_eq in E;
      injection E as <-; simpl; tauto.
  - apply digits1_all in H. revert H. apply all_chars_impl.
    intros d Hd. apply narrow_digit_is_hex. right. exact Hd.
Qed.

Lemma non_decimal_trim (c : ascii) (r : string) :
  In c ["x"; "X"; "o"; "O"; "b"; "B"]%char ->
  all_chars is_hex_digit r = true ->
  trim (String "0" (String c r)) = String "0" (String c r)
  /\ xparseFloat (String "0" (String c r)) = Fin 0.
Proof.
  intros Hc Hr. split.
  - unfold trim. cbn [trim_start]. change (is_whitespace "0") with false.
    cbv iota. apply trim_end_id. cbn [all_chars].
    rewrite (all_chars_impl _ _ r hex_digit_not_space Hr).
    simpl in Hc.
    repeat (destruct Hc as [<-|Hc]; [reflexivity|]). destruct Hc.
  - simpl in Hc.
    repeat (destruct Hc as [<-|Hc]; [reflexivity|]). destruct Hc.
Qed.

End FieldFacts.

(** X20.  Two kinds of field that [parseCSV] turns into a Number that is
    not their value.  On exact numbers, a blank field (empty once trimmed)
    is stored as NaN, not as an empty string: [isNaN] of the empty string is
    false, and [parseFloat] of it is NaN.  A field that is a hexadecimal,
    octal or binary integer literal ([0x1F], [0o17], [0b101]) is stored as
    0: [isNaN] accepts the literal, but [parseFloat] reads decimal digits
    only and stops after the leading 0. *)
Theorem visualizer_blank_and_non_decimal_fields (field : string) :
  (trim field = "" ->
   parseCSV_cell (N := Exact.exact) (Some (trim field))
   = CNumber Exact.XNaN)
  /\ (non_decimal_integer (trim field) = true ->
      parseCSV_cell (N := Exact.exact) (Some (trim field))
      = CNumber (Exact.Fin 0)).
Proof.
  split.
  - intros ->. reflexivity.
  - intros H. destruct (non_decimal_shape _ H) as (c & r & E & Hc & Hr).
    rewrite E in *.
    destruct (non_decimal_trim c r Hc Hr) as [Htrim Hfloat].
    unfold parseCSV_cell, isNaN_string. rewrite Htrim. cbv iota.
    unfold str_numeric_literal. rewrite H. cbn [orb negb].
    change (@parseFloat Exact.exact) with Exact.xparseFloat.
    rewrite Hfloat. reflexivity.
Qed.

Lemma visualizer_blank_and_non_decimal_fields_witness :
  parseCSV_cell (N := Exact.exact) (Some (trim "  "))
  = CNumber Exact.XNaN
  /\ parseCSV_cell (N := Exact.exact) (Some (trim " 0x1F"))
     = CNumber (Exact.Fin 0).
Proof.
  split.
  - exact (proj1 (visualizer_blank_and_non_decimal_fields "  ") eq_refl).
  - exact (proj2 (visualizer_blank_and_non_decimal_fields " 0x1F") eq_refl).
Defined.


(** ** The stage display *)

Section StageDisplayFacts.
Import Exact.

Lemma xindex_of_nat (i : nat) : array_index (of_nat (N := exact) i) = Some i.
Proof.
  rewrite of_nat_fin. change (@array_index exact) with xindex.
  rewrite (xindex_int _ (Z.of_nat i)) by (try apply Qred_correct; lia).
  rewrite Nat2Z.id. reflexivity.
Qed.

Lemma display_of_timeline (samples i : nat) (d : dataset (@num exact)) :
  i < samples ->
  sleepStages d = Some (stageTimeline cyclePattern 4 samples) ->
  updateSleepStageDisplay (Some d) (of_nat i)
  = Normal (stageName (nth ((24 * i / samples) mod 6) cyclePattern "N2"))
  /\ (updateSleepStageDisplay (Some d) (of_nat i) = Normal None
      <-> (24 * i / samples) mod 6 = 0).
Proof.
  intros Hi Hs. unfold updateSleepStageDisplay, at_index.
  rewrite Hs, xindex_of_nat, (stageTimeline_lookup _ _ _ _ Hi).
  rewrite timelineStage_exact by lia.
  assert (Hk : (24 * i / samples) mod 6 < 6)
    by (apply Nat.mod_upper_bound; lia).
  destruct ((24 * i / samples) mod 6) as [|[|[|[|[|[|k]]]]]]; try lia;
    (split; [reflexivity|]); split; intros H; try reflexivity;
    discriminate H.
Qed.

End StageDisplayFacts.

(** X21.  What [updateSleepStageDisplay] shows, on exact numbers.  On a
    dataset that comes from [parseCSVData] it raises a TypeError for every
    cursor position, since such a dataset has no [sleepStages].  On the
    generated dataset of [samples] samples and a cursor [i < samples] it
    looks up the label of index [i], the stage at position
    [(24 * i / samples) mod 6] of the cycle pattern, and writes its name;
    for the first sixth of each of the four cycles (label ['Wake'], which
    [this.sleepStages] does not list) it writes nothing, so the display
    keeps the previous stage. *)
Theorem stage_display_by_cursor
    (csvText : string) (idx : @num Exact.exact) (samples i : nat)
    (tp : tape (N := Exact.exact)) (n : nat) :
  i < samples ->
  updateSleepStageDisplay (Some (parseCSVData csvText)) idx
  = Throw "TypeError"
  /\ exists d n',
       generateDataset samples tp n = (Normal d, n')
       /\ updateSleepStageDisplay (Some d) (of_nat i)
          = Normal (stageName
                      (nth ((24 * i / samples) mod 6) cyclePattern "N2"))
       /\ (updateSleepStageDisplay (Some d) (of_nat i) = Normal None
           <-> (24 * i / samples) mod 6 = 0).
Proof.
  intros Hi. split; [reflexivity|].
  destruct (generateDataset_spec samples tp n)
    as (d & n' & Hrun & _ & Hs & _).
  exists d, n'. split; [exact Hrun|].
  apply display_of_timeline; assumption.
Qed.

Lemma stage_display_by_cursor_witness :
  6 < 24
  /\ exists d n',
       generateDataset (N := Exact.exact) 24 Examples.tape_high 0
       = (Normal d, n')
       /\ updateSleepStageDisplay (Some d) (of_nat 6) = Normal None.
Proof.
  assert (H : 6 < 24) by lia.
  split; [exact H|].
  destruct (stage_display_by_cursor "" (Exact.Fin 0) 24 6
              Examples.tape_high 0 H)
    as (_ & d & n' & Hrun & _ & Hnone).
  exists d, n'. split; [exact Hrun|]. apply Hnone. reflexivity.
Defined.

(** ** Playback *)

Section PlaybackFacts.
Import Exact ExactExt.

(** [a % b] for [0 <= a] and [0 < b]. *)
Lemma xrem_range (a b : Q) :
  (0 <= a)%Q -> (0 < b)%Q ->
  exists r, xrem (Fin a) (Fin b) = Fin r
            /\ (0 <= r)%Q /\ (r < b)%Q
            /\ ((a < b)%Q -> (r == a)%Q)
            /\ ((a == b)%Q -> (r == 0)%Q).
Proof.
  intros Ha Hb.
  assert (Hb0 : ~ (b == 0)%Q) by lra.
  unfold xrem. rewrite (Qis_zero_false b Hb0).
  assert (Hx0 : (0 <= a / b)%Q).
  { apply Qle_shift_div_l; [exact Hb | lra]. }
  unfold Qtrunc. rewrite Qltb_false by exact Hx0.
  set (k := Qfloor (a / b)).
  assert (Hk1 : (inject_Z k <= a / b)%Q) by apply Qfloor_le.
  assert (Hk2 : (a / b < inject_Z (k + 1))%Q) by apply Qlt_floor.
  rewrite inject_Z_plus in Hk2. change (inject_Z 1) with 1%Q in Hk2.
  assert (Hab : (a == (a / b) * b)%Q) by (field; exact Hb0).
  set (x := (a / b)%Q) in *.
  unfold fin. eexists. split; [reflexivity|].
  rewrite Qred_correct.
  assert (Hlow : (inject_Z k * b <= x * b)%Q)
    by (apply Qmult_le_compat_r; lra).
  assert (Hup : (x * b < (inject_Z k + 1) * b)%Q)
    by (apply Qmult_lt_compat_r; lra).
  split; [lra|]. split; [lra|]. split.
  - intros Hlt.
    assert (Hx1 : (x < 1)%Q).
    { apply Qlt_shift_div_r; [exact Hb | lra]. }
    assert (Hk : k = 0%Z).
    { assert (H1 : (inject_Z k < inject_Z 1)%Q)
        by (change (inject_Z 1) with 1%Q; lra).
      assert (H2 : (inject_Z (-1) < inject_Z k)%Q)
        by (change (inject_Z (-1)) with (-1)%Q; lra).
      rewrite <- Zlt_Qlt in H1, H2. lia. }
    rewrite Hk. change (inject_Z 0) with 0%Q. lra.
  - intros Heq.
    assert (Hx1 : (x == 1)%Q).
    { unfold x. rewrite Heq. field. exact Hb0. }
    assert (Hk : k = 1%Z).
    { unfold k. rewrite (Qfloor_comp _ _ Hx1). reflexivity. }
    rewrite Hk. change (inject_Z 1) with 1%Q. lra.
Qed.

End PlaybackFacts.

(** X22.  The two playback loops, on exact numbers, for a cursor
    [c >= 0].  The monitor advances by [(c + Math.ceil(playSpeed)) % maxTime]:
    for a speed above 0 and [maxTime > 0] the new index is at least 0 and
    strictly below [maxTime], so playback never shows the last sample, and
    for [maxTime = 0] (a recording of one sample) the new index is NaN.
    The visualizer advances by [(c + 1) % (maxTime + 1)]: for
    [maxTime >= 0] the new index is [c + 1] as long as [c < maxTime], the
    last row included, and 0 after the last row. *)
Theorem playback_steps (c v m : Q) :
  (0 <= c)%Q -> (0 < v)%Q -> (0 <= m)%Q ->
  ((0 < m)%Q ->
   exists r,
     startRealTimePlayback_step (C := ExactExt.exact_ext)
       (Exact.Fin c) (Exact.Fin v) (Exact.Fin m) = Exact.Fin r
     /\ (0 <= r)%Q /\ (r < m)%Q)
  /\ ((m == 0)%Q ->
      startRealTimePlayback_step (C := ExactExt.exact_ext)
        (Exact.Fin c) (Exact.Fin v) (Exact.Fin m) = Exact.XNaN)
  /\ exists r,
       startPlayback_step (N := Exact.exact) (Exact.Fin c) (Exact.Fin m)
       = Exact.Fin r
       /\ ((c < m)%Q -> (r == c + 1)%Q)
       /\ ((c == m)%Q -> (r == 0)%Q).
Proof.
  intros Hc Hv Hm.
  unfold startRealTimePlayback_step, startPlayback_step.
  change (@Math_ceil Exact.exact ExactExt.exact_ext) with ExactExt.xceil.
  change (@add Exact.exact) with Exact.xadd.
  change (@rem Exact.exact) with Exact.xrem.
  change (@lit Exact.exact 1) with (Exact.Fin 1).
  unfold ExactExt.xceil, Exact.fin. rewrite !xadd_fin.
  assert (Hceil : (v <= inject_Z (Qceiling v))%Q) by apply Qle_ceiling.
  set (a := Qred (c + Qred (inject_Z (Qceiling v)))).
  assert (Ha : (0 <= a)%Q) by (unfold a; rewrite !Qred_correct; lra).
  split; [|split].
  - intros Hm0. destruct (xrem_range a m Ha Hm0) as (r & Hr & H0 & H1 & _).
    exists r. split; [exact Hr|]. split; assumption.
  - intros Hm0. unfold Exact.xrem.
    assert (E : Exact.Qis_zero m = true) by (apply Qeq_bool_iff; exact Hm0).
    rewrite E. reflexivity.
  - set (a1 := Qred (c + 1)). set (b1 := Qred (m + 1)).
    assert (Ha1 : (a1 == c + 1)%Q) by apply Qred_correct.
    assert (Hb1 : (b1 == m + 1)%Q) by apply Qred_correct.
    destruct (xrem_range a1 b1) as (r & Hr & _ & _ & Hlt & Heq); [lra | lra |].
    exists r. split; [exact Hr|]. split.
    + intros H. rewrite Hlt by lra. exact Ha1.
    + intros H. apply Heq. lra.
Qed.

Lemma playback_steps_witness :
  (0 <= 398)%Q /\ (0 < 1 # 2)%Q /\ (0 < 399)%Q
  /\ (exists r,
        startRealTimePlayback_step (C := ExactExt.exact_ext)
          (Exact.Fin 398) (Exact.Fin (1 # 2)) (Exact.Fin 399) = Exact.Fin r
        /\ (r < 399)%Q)
  /\ exists r,
       startPlayback_step (N := Exact.exact) (Exact.Fin 398) (Exact.Fin 399)
       = Exact.Fin r
       /\ (r == 398 + 1)%Q.
Proof.
  assert (H0 : (0 <= 398)%Q) by (vm_compute; discriminate).
  assert (H1 : (0 < 1 # 2)%Q) by reflexivity.
  assert (H2 : (0 < 399)%Q) by reflexivity.
  assert (H3 : (398 < 399)%Q) by reflexivity.
  split; [exact H0|]. split; [exact H1|]. split; [exact H2|].
  destruct (playback_steps 398 (1 # 2) 399 H0 H1 (Qlt_le_weak _ _ H2))
    as (Hmon & _ & r' & Hr' & Hnext & _).
  split.
  - destruct (Hmon H2) as (r & Hr & _ & Hlt). exists r.
    split; [exact Hr | exact Hlt].
  - exists r'. split; [exact Hr' | exact (Hnext H3)].
Defined.


(** ** The sleep score *)

Section ScoreFacts.
Import Exact.

(** [base + Math.floor(r * width)] for a draw [r] in [[0, 1)]. *)
Lemma floor_of_draw (r : Q) (base width : Z) :
  (0 <= r)%Q -> (r < 1)%Q -> (0 < width)%Z ->
  exists k : Z,
    xadd (Fin (inject_Z base))
      (xfloor (xmul (Fin r) (Fin (inject_Z width))))
    = Fin (Qred (inject_Z base + Qred (inject_Z k)))
    /\ (0 <= k < width)%Z.
Proof.
  intros H0 H1 Hw.
  unfold xmul, xfloor, fin. rewrite xadd_fin.
  set (x := Qred (r * inject_Z width)).
  exists (Qfloor x). split; [reflexivity|].
  assert (Hx : (x == r * inject_Z width)%Q) by apply Qred_correct.
  assert (Hwq : (0 < inject_Z width)%Q).
  { change 0%Q with (inject_Z 0). rewrite <- Zlt_Qlt. exact Hw. }
  assert (Hx0 : (0 <= x)%Q).
  { rewrite Hx. apply Qmult_le_0_compat; lra. }
  assert (Hx1 : (x < inject_Z width)%Q).
  { rewrite Hx. rewrite <- (Qmult_1_l (inject_Z width)) at 2.
    apply Qmult_lt_compat_r; assumption. }
  assert (Hk1 : (inject_Z (Qfloor x) <= x)%Q) by apply Qfloor_le.
  assert (Hk2 : (x < inject_Z (Qfloor x + 1))%Q) by apply Qlt_floor.
  split.
  - assert (H : (inject_Z 0 < inject_Z (Qfloor x + 1))%Q)
      by (change (inject_Z 0) with 0%Q; lra).
    rewrite <- Zlt_Qlt in H. lia.
  - assert (H : (inject_Z (Qfloor x) < inject_Z width)%Q) by lra.
    rewrite <- Zlt_Qlt in H. exact H.
Qed.

End ScoreFacts.

(** X23.  On exact numbers, with two draws in [[0, 1)],
    [updateSleepQualityScore] shows a score that is one of the integers 85
    to 94 and a confidence that is one of the integers 85 to 99 (never
    100), and it draws exactly those two values. *)
Theorem sleep_score_range (tp : tape (N := Exact.exact)) (n : nat) (p q : Q) :
  tp n = Exact.Fin p -> tp (S n) = Exact.Fin q ->
  (0 <= p)%Q -> (p < 1)%Q -> (0 <= q)%Q -> (q < 1)%Q ->
  exists (s c : Q) (ks kc : Z),
    updateSleepQualityScore tp n
    = (Normal (Exact.Fin s, Exact.Fin c), S (S n))
    /\ (s == inject_Z ks)%Q /\ (85 <= ks <= 94)%Z
    /\ (c == inject_Z kc)%Q /\ (85 <= kc <= 99)%Z.
Proof.
  intros Hp Hq Hp0 Hp1 Hq0 Hq1.
  unfold updateSleepQualityScore, bind, Math_random, ret.
  rewrite Hp, Hq.
  destruct (floor_of_draw p 85 10 Hp0 Hp1) as (k1 & E1 & Hk1); [lia|].
  destruct (floor_of_draw q 85 15 Hq0 Hq1) as (k2 & E2 & Hk2); [lia|].
  change (@add Exact.exact) with Exact.xadd.
  change (@mul Exact.exact) with Exact.xmul.
  change (@Math_floor Exact.exact) with Exact.xfloor.
  change (@lit Exact.exact 85) with (Exact.Fin (inject_Z 85)).
  change (@lit Exact.exact 10) with (Exact.Fin (inject_Z 10)).
  change (@lit Exact.exact 15) with (Exact.Fin (inject_Z 15)).
  rewrite E1, E2.
  eexists _, _, (85 + k1)%Z, (85 + k2)%Z.
  split; [reflexivity|].
  rewrite !Qred_correct, !inject_Z_plus.
  split; [reflexivity|]. split; [lia|]. split; [reflexivity | lia].
Qed.

Lemma sleep_score_range_witness :
  (0 <= 7 # 8)%Q /\ (7 # 8 < 1)%Q
  /\ exists (s c : Q) (ks kc : Z),
       updateSleepQualityScore (N := Exact.exact) Examples.tape_high 0
       = (Normal (Exact.Fin s, Exact.Fin c), 2)
       /\ (s == inject_Z ks)%Q /\ (ks <= 94)%Z
       /\ (c == inject_Z kc)%Q /\ (kc <= 99)%Z.
Proof.
  assert (H0 : (0 <= 7 # 8)%Q) by (vm_compute; discriminate).
  assert (H1 : (7 # 8 < 1)%Q) by reflexivity.
  split; [exact H0|]. split; [exact H1|].
  destruct (sleep_score_range Examples.tape_high 0 (7 # 8) (7 # 8)
              eq_refl eq_refl H0 H1 H0 H1)
    as (s & c & ks & kc & Hrun & Hs & [_ Hks] & Hc & [_ Hkc]).
  exists s, c, ks, kc. repeat split; assumption.
Defined.
